(** * dBVoir: the download-completion state machine of [automation/dbvoir.py]

    A shallow embedding of [MusicProcessor] (its event handlers,
    [handle_file], [process_file], [process_pending]) and of
    [trigger_jellyfin_rescan], followed by the properties the
    specification states about them.

    Modelling decisions.
    - The two module-level containers are part of an explicit state:
      [processed_files] is a finite set of strings, [pending_imports] is a
      Python [dict], kept as an association list in insertion order because
      [process_pending] iterates over it.
    - Everything the program asks of its environment (the clock, the
      filesystem, the beets subprocess, the HTTP request) is answered by an
      [Oracle].  The state counts the queries made so far ([tick]) and the
      oracle may answer each query differently, so a theorem quantified over
      every oracle covers every behaviour of the environment, including files
      that change or vanish between two consecutive calls.
    - Everything the program does to its environment is appended to a
      [trace].  Two extra trace entries, [Enter_process_file] and
      [Enter_trigger_jellyfin_rescan], mark the entry into those two
      functions; they are the only instrumentation.
    - Timestamps ([time.time()], [st_mtime]) are integers of an arbitrary
      fixed unit; the source compares differences of them with integer
      constants only.
    - [exn] lists subclasses of [Exception].  [KeyboardInterrupt] and
      [SystemExit], which end the program, are outside the model.
    - The callbacks run on the watchdog observer thread and
      [process_pending] on the main thread, with no lock.  The histories of
      [exec_ops] run callbacks and polls one after the other; a dispatch
      that another thread overlaps while it is blocked in [subprocess.run]
      is modelled by the two halves [process_file_launch] and
      [process_file_resume]. *)

From Stdlib Require Import ZArith Lia Ascii.
From stdpp Require Import gmap strings list.

Local Open Scope Z_scope.

(** ** Exceptions *)

Inductive exn : Type :=
| OSError
| PermissionError
| FileNotFoundError
| TimeoutExpired
| RequestException
| KeyError
| ValueError
| RuntimeError.

(** [isinstance(e, (OSError, PermissionError))].  [PermissionError] and
    [FileNotFoundError] derive from [OSError]; so does
    [requests.RequestException] (it derives from [IOError]). *)
Definition is_OSError (e : exn) : bool :=
  match e with
  | OSError | PermissionError | FileNotFoundError | RequestException => true
  | _ => false
  end.

(** An answer of the environment: a value, or an exception to raise. *)
Inductive answer (A : Type) : Type :=
| Ok (a : A)
| Raise (e : exn).
Arguments Ok {A} a.
Arguments Raise {A} e.

(** ** The pathlib and str operations the program uses *)

Class PathLib : Type := {
  path_str : string -> string;      (* str(Path(s)) *)
  path_suffix : string -> string;   (* Path(s).suffix *)
  path_name : string -> string;     (* Path(s).name *)
  path_parent : string -> string;   (* str(Path(s).parent) *)
  str_lower : string -> string      (* s.lower() *)
}.

(** [needle in hay] on Python strings. *)
Fixpoint str_in (needle hay : string) : bool :=
  String.prefix needle hay ||
  match hay with
  | EmptyString => false
  | String _ rest => str_in needle rest
  end.

(** Truthiness of a [str]. *)
Definition truthy (s : string) : bool :=
  match s with EmptyString => false | _ => true end.

(** Truthiness of the result of [os.getenv] without a default. *)
Definition truthy_opt (o : option string) : bool :=
  match o with None => false | Some s => truthy s end.

(** ** Configuration: the [CONFIG] dictionary *)

Record Config : Type := mkConfig {
  nicotine_download_dir : string;
  beets_binary : string;
  beets_config : string;
  jellyfin_url : string;
  jellyfin_api_key : option string;
  jellyfin_library_id : string;
  watch_delay : Z;
  file_extensions : gset string;
  script_dir : string               (* str(Path(__file__).parent) *)
}.

(** ** The environment *)

Record stat_result : Type := mkStat { st_size : Z; st_mtime : Z }.

Record CompletedProcess : Type := mkCompleted {
  returncode : Z;
  stdout : string;
  stderr : string
}.

Record Oracle : Type := mkOracle {
  o_time : nat -> Z;
  o_exists : nat -> string -> answer bool;
  o_stat : nat -> string -> answer stat_result;
  o_is_file : nat -> string -> answer bool;
  o_run : nat -> list string -> Z -> string -> answer CompletedProcess;
  o_post : nat -> string -> list (string * string) -> list (string * string)
           -> Z -> answer Z
}.

(** ** Effects *)

Inductive Level : Type := DEBUG | INFO | WARNING | ERROR.

(** One constructor per logging statement of the source, carrying the
    values the source interpolates. *)
Inductive LogMsg : Type :=
| MsgNewWaiting (file_path : string)
| MsgLocked (file_path : string) (e : exn)
| MsgProcessing (file_path : string)
| MsgSuccess (file_path : string)
| MsgNonZero (file_path : string)
| MsgBeetsOutput (out : string)
| MsgBeetsError (err : string)
| MsgTimeout (file_path : string)
| MsgError (file_path : string) (e : exn)
| MsgNoApiKey
| MsgNoUrl
| MsgRefreshed
| MsgRescanStatus (status : Z)
| MsgRescanFailed (e : exn).

Inductive Event : Type :=
| Enter_process_file (file_path : string)
| Enter_trigger_jellyfin_rescan
| Log (lvl : Level) (msg : LogMsg)
| Sleep (secs : Z)
| SubprocessRun (cmd : list string) (timeout : Z) (cwd : string)
| RequestsPost (url : string) (headers params : list (string * string))
               (timeout : Z).

(** ** Program state *)

Record State : Type := mkState {
  pending_imports : list (string * Z);
  processed_files : gset string;
  tick : nat;
  trace : list Event
}.

Definition initial_state : State :=
  {| pending_imports := []; processed_files := ∅; tick := 0%nat; trace := [] |}.

(** *** Python [dict] operations on the insertion-ordered association list *)

Definition dict_mem (k : string) (d : list (string * Z)) : bool :=
  bool_decide (k ∈ d.*1).

(** [d[k] = v]: an existing key keeps its position, a new key goes last. *)
Fixpoint dict_set (k : string) (v : Z) (d : list (string * Z))
  : list (string * Z) :=
  match d with
  | [] => [(k, v)]
  | (k', v') :: rest =>
      if bool_decide (k' = k) then (k', v) :: rest
      else (k', v') :: dict_set k v rest
  end.

(** [del d[k]]: [None] stands for [KeyError]. *)
Fixpoint dict_del (k : string) (d : list (string * Z))
  : option (list (string * Z)) :=
  match d with
  | [] => None
  | (k', v') :: rest =>
      if bool_decide (k' = k) then Some rest
      else rest' ← dict_del k rest; Some ((k', v') :: rest')
  end.

(** [d.get(k)] *)
Fixpoint dict_get (k : string) (d : list (string * Z)) : option Z :=
  match d with
  | [] => None
  | (k', v') :: rest => if bool_decide (k' = k) then Some v' else dict_get k rest
  end.

(** ** The state-and-exception monad *)

Inductive result (A : Type) : Type :=
| Returned (a : A)
| Raised (e : exn).
Arguments Returned {A} a.
Arguments Raised {A} e.

Definition M (A : Type) : Type := State -> result A * State.

Definition ret {A} (a : A) : M A := fun s => (Returned a, s).

Definition raise {A} (e : exn) : M A := fun s => (Raised e, s).

Definition bind {A B} (c : M A) (k : A -> M B) : M B :=
  fun s =>
    match c s with
    | (Returned a, s') => k a s'
    | (Raised e, s') => (Raised e, s')
    end.

Notation "x <- c ;; k" := (bind c (fun x => k))
  (at level 20, c at level 99, k at level 200, only parsing).
Notation "c ;; k" := (bind c (fun _ => k))
  (at level 100, k at level 200, right associativity, only parsing).

(** [try: c  except ...]: the handler answers [None] for an exception that
    no [except] clause matches, which then propagates. *)
Definition try_except {A} (c : M A) (handler : exn -> option (M A)) : M A :=
  fun s =>
    match c s with
    | (Returned a, s') => (Returned a, s')
    | (Raised e, s') =>
        match handler e with
        | Some h => h s'
        | None => (Raised e, s')
        end
    end.

Definition emit (ev : Event) : M unit :=
  fun s => (Returned tt,
            {| pending_imports := pending_imports s;
               processed_files := processed_files s;
               tick := tick s;
               trace := trace s ++ [ev] |}).

Definition next_tick (s : State) : State :=
  {| pending_imports := pending_imports s;
     processed_files := processed_files s;
     tick := S (tick s);
     trace := trace s |}.

(** A query to the environment: answered at the current tick. *)
Definition ask {A} (q : nat -> answer A) : M A :=
  fun s =>
    match q (tick s) with
    | Ok a => (Returned a, next_tick s)
    | Raise e => (Raised e, next_tick s)
    end.

Definition get_processed : M (gset string) :=
  fun s => (Returned (processed_files s), s).

Definition get_pending : M (list (string * Z)) :=
  fun s => (Returned (pending_imports s), s).

Definition put_pending (d : list (string * Z)) : M unit :=
  fun s => (Returned tt,
            {| pending_imports := d;
               processed_files := processed_files s;
               tick := tick s;
               trace := trace s |}).

(** [processed_files.add(k)] *)
Definition processed_add (k : string) : M unit :=
  fun s => (Returned tt,
            {| pending_imports := pending_imports s;
               processed_files := {[k]} ∪ processed_files s;
               tick := tick s;
               trace := trace s |}).

(** [self.pending_imports[k] = v] *)
Definition pending_set (k : string) (v : Z) : M unit :=
  d <- get_pending ;; put_pending (dict_set k v d).

(** [del self.pending_imports[k]] *)
Definition pending_del (k : string) : M unit :=
  d <- get_pending ;;
  match dict_del k d with
  | Some d' => put_pending d'
  | None => raise KeyError
  end.

(** ** The program *)

(** A watchdog [FileSystemEvent], as far as the handlers read it. *)
Record FileSystemEvent : Type := mkEvent {
  is_directory : bool;
  src_path : string
}.

Section Program.

Context {PL : PathLib}.
Variable CONFIG : Config.
Variable world : Oracle.

(** Environment queries.  A [Path] object is represented by the string it
    was built from; the operating system sees [str(path)]. *)
Definition time_time : M Z :=
  ask (fun t => Ok (o_time world t)).

Definition path_exists (p : string) : M bool :=
  ask (fun t => o_exists world t (path_str p)).

Definition path_stat (p : string) : M stat_result :=
  ask (fun t => o_stat world t (path_str p)).

Definition path_is_file (p : string) : M bool :=
  ask (fun t => o_is_file world t (path_str p)).

Definition time_sleep (secs : Z) : M unit := emit (Sleep secs).

Definition logger (lvl : Level) (msg : LogMsg) : M unit := emit (Log lvl msg).

(** [subprocess.run(cmd, capture_output=True, text=True, timeout=..., cwd=...)] *)
Definition subprocess_run (cmd : list string) (timeout : Z) (cwd : string)
  : M CompletedProcess :=
  emit (SubprocessRun cmd timeout cwd) ;;
  ask (fun t => o_run world t cmd timeout cwd).

(** [requests.post(url, headers=..., params=..., timeout=...).status_code] *)
Definition requests_post (url : string) (headers params : list (string * string))
  (timeout : Z) : M Z :=
  emit (RequestsPost url headers params timeout) ;;
  ask (fun t => o_post world t url headers params timeout).

(** [trigger_jellyfin_rescan()], lines 182-212. *)
Definition trigger_jellyfin_rescan : M unit :=
  emit Enter_trigger_jellyfin_rescan ;;
  if negb (truthy_opt (jellyfin_api_key CONFIG)) then
    logger WARNING MsgNoApiKey
  else if negb (truthy (jellyfin_url CONFIG)) then
    logger WARNING MsgNoUrl
  else
    try_except
      (let headers :=
         [("X-Emby-Token", default "" (jellyfin_api_key CONFIG));
          ("Content-Type", "application/json")] in
       let url := jellyfin_url CONFIG +:+ "/Library/Refresh" in
       let params :=
         [("Recursive", "true"); ("MetadataRefreshMode", "Default")] ++
         (if truthy (jellyfin_library_id CONFIG)
          then [("ItemIds", jellyfin_library_id CONFIG)] else []) in
       status_code <- requests_post url headers params 10 ;;
       if bool_decide (status_code ∈ [200; 204]) then
         logger INFO MsgRefreshed
       else
         logger WARNING (MsgRescanStatus status_code))
      (fun e => Some (logger ERROR (MsgRescanFailed e))).

(** The success test of line 145. *)
Definition import_succeeded (r : CompletedProcess) : bool :=
  (returncode r =? 0) || str_in "Skipping" (stdout r)
  || str_in "not match" (stdout r).

(** The command line of lines 127-135. *)
Definition beets_cmd (import_path : string) : list string :=
  [beets_binary CONFIG; "-c"; beets_config CONFIG; "import"; "-q";
   "--noautotag"; "--move"; import_path].

(** [MusicProcessor.process_file], lines 113-158. *)
Definition process_file (file_path : string) : M unit :=
  emit (Enter_process_file file_path) ;;
  processed <- get_processed ;;
  if bool_decide (path_str file_path ∈ processed) then ret tt
  else
    logger INFO (MsgProcessing file_path) ;;
    try_except
      (is_file <- path_is_file file_path ;;
       let import_path :=
         if is_file then path_parent file_path else path_str file_path in
       r <- subprocess_run (beets_cmd import_path) 600 (script_dir CONFIG) ;;
       if import_succeeded r then
         logger INFO (MsgSuccess file_path) ;;
         processed_add (path_str file_path) ;;
         trigger_jellyfin_rescan
       else
         logger WARNING (MsgNonZero file_path) ;;
         logger DEBUG (MsgBeetsOutput (stdout r)) ;;
         logger DEBUG (MsgBeetsError (stderr r)))
      (fun e =>
         match e with
         | TimeoutExpired => Some (logger ERROR (MsgTimeout file_path))
         | _ => Some (logger ERROR (MsgError file_path e))
         end).

(** [MusicProcessor.handle_file], lines 80-111. *)
Definition handle_file (file_path : string) : M unit :=
  if negb (bool_decide
             (str_lower (path_suffix file_path) ∈ file_extensions CONFIG))
  then ret tt
  else
    (* [not path.exists() or path.stat().st_size == 0], left to right *)
    missing_or_empty <-
      (ex <- path_exists file_path ;;
       if negb ex then ret true
       else st <- path_stat file_path ;; ret (st_size st =? 0)) ;;
    if (missing_or_empty : bool) then ret tt
    else
      processed <- get_processed ;;
      if bool_decide (path_str file_path ∈ processed) then ret tt
      else
        try_except
          (st <- path_stat file_path ;;
           let mtime := st_mtime st in
           now <- time_time ;;
           let age := now - mtime in
           if age <? watch_delay CONFIG then
             logger INFO (MsgNewWaiting file_path) ;;
             now' <- time_time ;;
             pending_set (path_str file_path) now'
           else
             process_file file_path)
          (fun e =>
             if is_OSError e
             then Some (logger DEBUG (MsgLocked file_path e))
             else None).

(** The first loop of [process_pending], lines 165-175: one iteration. *)
Definition check_pending (current_time : Z) (item : string * Z)
  (to_process : list string) : M (list string) :=
  let '(file_path, added_time) := item in
  if current_time - added_time >=? watch_delay CONFIG then
    try_except
      (* [path.exists() and path.stat().st_size > 0], left to right *)
      (present <-
         (ex <- path_exists file_path ;;
          if (ex : bool) then st <- path_stat file_path ;; ret (st_size st >? 0)
          else ret false) ;;
       if (present : bool) then
         st <- path_stat file_path ;;
         let mtime := st_mtime st in
         if current_time - mtime >=? 5
         then ret (to_process ++ [file_path])
         else ret to_process
       else ret to_process)
      (fun e => if is_OSError e then Some (ret to_process) else None)
  else ret to_process.

Fixpoint scan_pending (current_time : Z) (items : list (string * Z))
  (to_process : list string) : M (list string) :=
  match items with
  | [] => ret to_process
  | item :: rest =>
      to_process' <- check_pending current_time item to_process ;;
      scan_pending current_time rest to_process'
  end.

(** The second loop of [process_pending], lines 177-179. *)
Fixpoint import_ready (to_process : list string) : M unit :=
  match to_process with
  | [] => ret tt
  | file_path :: rest =>
      pending_del file_path ;;
      process_file file_path ;;
      import_ready rest
  end.

(** [MusicProcessor.process_pending], lines 160-179. *)
Definition process_pending : M unit :=
  current_time <- time_time ;;
  items <- get_pending ;;
  to_process <- scan_pending current_time items [] ;;
  import_ready to_process.

(** [on_created], [on_modified], [on_closed], lines 61-78. *)
Definition on_created (event : FileSystemEvent) : M unit :=
  if is_directory event then ret tt
  else handle_file (src_path event).

Definition on_modified (event : FileSystemEvent) : M unit :=
  if is_directory event then ret tt
  else handle_file (src_path event).

Definition on_closed (event : FileSystemEvent) : M unit :=
  if is_directory event then ret tt
  else
    pending <- get_pending ;;
    if dict_mem (src_path event) pending then
      time_sleep 2 ;;
      process_file (src_path event)
    else ret tt.

(** One iteration of the loop of [watch_directory], lines 233-236. *)
Definition poll_once : M unit :=
  time_sleep 1 ;;
  process_pending.

(** What can happen to a running watcher: a watchdog callback, or one
    turn of the poll loop. *)
Inductive Op : Type :=
| Created (event : FileSystemEvent)
| Modified (event : FileSystemEvent)
| Closed (event : FileSystemEvent)
| Poll.

Definition exec_op (op : Op) : M unit :=
  match op with
  | Created ev => on_created ev
  | Modified ev => on_modified ev
  | Closed ev => on_closed ev
  | Poll => poll_once
  end.

(** A serial history: every callback and every poll runs to its end before
    the next one starts.  After an operation that raised, the history goes
    on from the state that operation left; a watcher that stops at such a
    point has a prefix of one of these histories.  Histories in which two
    operations overlap are not among these (see [process_file_launch]). *)
Fixpoint exec_ops (ops : list Op) (s : State) : State :=
  match ops with
  | [] => s
  | op :: rest => exec_ops rest (exec_op op s).2
  end.

End Program.

(** ** [process_file] around its blocking call

    [subprocess.run] blocks the calling thread until beets has ended, and
    the other thread runs meanwhile: the callbacks are called on the
    observer thread, [process_pending] on the main thread (lines 227-236),
    and nothing serialises them.  [process_file] is cut at that call. *)

Section Blocking.

Context {PL : PathLib}.
Variable CONFIG : Config.
Variable world : Oracle.

(** Lines 113-137, until the subprocess has been started.  The answer is
    the command line that is running, or [None] when [process_file] is
    already over (the path is processed, or [is_file()] raised and the
    error was logged). *)
Definition process_file_launch (file_path : string)
  : M (option (list string)) :=
  emit (Enter_process_file file_path) ;;
  processed <- get_processed ;;
  if bool_decide (path_str file_path ∈ processed) then ret None
  else
    logger INFO (MsgProcessing file_path) ;;
    try_except
      (is_file <- path_is_file world file_path ;;
       let import_path :=
         if is_file then path_parent file_path else path_str file_path in
       emit (SubprocessRun (beets_cmd CONFIG import_path) 600
               (script_dir CONFIG)) ;;
       ret (Some (beets_cmd CONFIG import_path)))
      (fun e =>
         match e with
         | TimeoutExpired =>
             Some (logger ERROR (MsgTimeout file_path) ;; ret None)
         | _ => Some (logger ERROR (MsgError file_path e) ;; ret None)
         end).

(** Lines 137-158, from the moment the subprocess has ended (or the call
    has raised). *)
Definition process_file_resume (file_path : string) (cmd : list string)
  : M unit :=
  try_except
    (r <- ask (fun t => o_run world t cmd 600 (script_dir CONFIG)) ;;
     if import_succeeded r then
       logger INFO (MsgSuccess file_path) ;;
       processed_add (path_str file_path) ;;
       trigger_jellyfin_rescan CONFIG world
     else
       logger WARNING (MsgNonZero file_path) ;;
       logger DEBUG (MsgBeetsOutput (stdout r)) ;;
       logger DEBUG (MsgBeetsError (stderr r)))
    (fun e =>
       match e with
       | TimeoutExpired => Some (logger ERROR (MsgTimeout file_path))
       | _ => Some (logger ERROR (MsgError file_path e))
       end).

(** The two halves one after the other. *)
Definition process_file_in_two (file_path : string) : M unit :=
  started <- process_file_launch file_path ;;
  match started with
  | Some cmd => process_file_resume file_path cmd
  | None => ret tt
  end.

(** [on_closed], lines 71-78, until its [process_file] is blocked. *)
Definition on_closed_launch (event : FileSystemEvent)
  : M (option (list string)) :=
  if is_directory event then ret None
  else
    pending <- get_pending ;;
    if dict_mem (src_path event) pending then
      time_sleep 2 ;;
      process_file_launch (src_path event)
    else ret None.

(** A close notification whose dispatch is overlapped by one turn of the
    poll loop: the observer thread starts beets and waits, the main thread
    polls, then beets ends and the observer thread goes on. *)
Definition closed_overlapped_by_poll (event : FileSystemEvent) : M unit :=
  started <- on_closed_launch event ;;
  poll_once CONFIG world ;;
  match started with
  | Some cmd => process_file_resume (src_path event) cmd
  | None => ret tt
  end.

End Blocking.

(** ** Reading a trace *)

(** The paths [process_file] was entered with, in order. *)
Definition dispatch_of (ev : Event) : option string :=
  match ev with Enter_process_file p => Some p | _ => None end.

Definition dispatched (tr : list Event) : list string := omap dispatch_of tr.

(** The launches of the import tool. *)
Definition is_run (ev : Event) : bool :=
  match ev with SubprocessRun _ _ _ => true | _ => false end.

Definition import_runs (tr : list Event) : nat := length (List.filter is_run tr).

(** The entries into [trigger_jellyfin_rescan]. *)
Definition is_rescan (ev : Event) : bool :=
  match ev with Enter_trigger_jellyfin_rescan => true | _ => false end.

Definition rescans (tr : list Event) : nat := length (List.filter is_rescan tr).

(** The HTTP requests sent. *)
Definition is_post (ev : Event) : bool :=
  match ev with RequestsPost _ _ _ _ => true | _ => false end.

Definition posts (tr : list Event) : nat := length (List.filter is_post tr).

(** The successful imports, by the key under which the path is recorded:
    the success branch of [process_file] logs [MsgSuccess] and nothing else
    does. *)
Definition success_of {PL : PathLib} (ev : Event) : option string :=
  match ev with Log INFO (MsgSuccess p) => Some (path_str p) | _ => None end.

Definition successes {PL : PathLib} (tr : list Event) : list string :=
  omap success_of tr.

(** ** A small concrete environment, to run the model *)

Module Sample.

(** The text after the last [c], and before it. *)
Fixpoint after_last (c : Ascii.ascii) (s : string) : option string :=
  match s with
  | EmptyString => None
  | String a rest =>
      match after_last c rest with
      | Some r => Some r
      | None => if Ascii.eqb a c then Some rest else None
      end
  end.

Fixpoint before_last (c : Ascii.ascii) (s : string) : option string :=
  match s with
  | EmptyString => None
  | String a rest =>
      match before_last c rest with
      | Some r => Some (String a r)
      | None => if Ascii.eqb a c then Some EmptyString else None
      end
  end.

Definition lower_ascii (a : Ascii.ascii) : Ascii.ascii :=
  let n := Ascii.N_of_ascii a in
  if (65 <=? n)%N && (n <=? 90)%N then Ascii.ascii_of_N (n + 32) else a.

Fixpoint lower (s : string) : string :=
  match s with
  | EmptyString => EmptyString
  | String a rest => String (lower_ascii a) (lower rest)
  end.

Definition name (s : string) : string := default s (after_last "/"%char s).

Definition suffix (s : string) : string :=
  match before_last "."%char (name s), after_last "."%char (name s) with
  | Some (String _ _), Some (String a ext) => String "."%char (String a ext)
  | _, _ => EmptyString
  end.

(** Normalised relative POSIX paths over ASCII: enough of pathlib to run
    the examples below. *)
#[global] Instance posix : PathLib := {|
  path_str := fun s => s;
  path_suffix := suffix;
  path_name := name;
  path_parent := fun s => default "." (before_last "/"%char s);
  str_lower := lower
|}.

(** The [CONFIG] of the source with no environment variable set. *)
Definition config : Config := {|
  nicotine_download_dir := "C:\media\music\incoming\soulseek";
  beets_binary := "beet";
  beets_config := "beets-config/config.yaml";
  jellyfin_url := "http://10.0.0.8:8096";
  jellyfin_api_key := None;
  jellyfin_library_id := "";
  watch_delay := 30;
  file_extensions :=
    {[ ".mp3"; ".flac"; ".m4a"; ".ogg"; ".opus"; ".wav"; ".wma" ]};
  script_dir := "automation"
|}.

(** The same with a credential. *)
Definition config_with_key : Config := {|
  nicotine_download_dir := nicotine_download_dir config;
  beets_binary := beets_binary config;
  beets_config := beets_config config;
  jellyfin_url := jellyfin_url config;
  jellyfin_api_key := Some "secret";
  jellyfin_library_id := jellyfin_library_id config;
  watch_delay := watch_delay config;
  file_extensions := file_extensions config;
  script_dir := script_dir config
|}.

(** A quiet world: the clock reads [now], every file exists with the given
    size and modification time, beets answers [proc], Jellyfin answers
    [status]. *)
Definition steady (now size mtime : Z) (proc : answer CompletedProcess)
  (status : answer Z) : Oracle := {|
  o_time := fun _ => now;
  o_exists := fun _ _ => Ok true;
  o_stat := fun _ _ => Ok {| st_size := size; st_mtime := mtime |};
  o_is_file := fun _ _ => Ok true;
  o_run := fun _ _ _ _ => proc;
  o_post := fun _ _ _ _ _ => status
|}.

Definition exit0 : answer CompletedProcess :=
  Ok {| returncode := 0; stdout := ""; stderr := "" |}.

Definition exit1 : answer CompletedProcess :=
  Ok {| returncode := 1; stdout := ""; stderr := "error: no such file" |}.

Definition exit1_skipped : answer CompletedProcess :=
  Ok {| returncode := 1; stdout := "Skipping."; stderr := "" |}.

(** A file that is there but cannot be examined: [exists()] answers
    [True], every [stat()] raises [PermissionError]. *)
Definition locked : Oracle := {|
  o_time := fun _ => 100;
  o_exists := fun _ _ => Ok true;
  o_stat := fun _ _ => Raise PermissionError;
  o_is_file := fun _ _ => Ok true;
  o_run := fun _ _ _ _ => exit0;
  o_post := fun _ _ _ _ _ => Ok 204
|}.

(** One pending entry, first seen at time 60 (40 before the clock of
    [steady 100]), after the five queries and the log line of the
    [handle_file] call that created it. *)
Definition one_pending : State := {|
  pending_imports := [("incoming/album/track.flac", 60)];
  processed_files := ∅;
  tick := 5%nat;
  trace := [Log INFO (MsgNewWaiting "incoming/album/track.flac")]
|}.

(** Two downloads in one album, and a world that changes while the program
    runs: until the tenth query the clock reads 100 and both files were
    written at 95; afterwards the clock reads 200 and the second file
    cannot be examined any more. *)
Definition track1 : string := "incoming/album/track1.flac".
Definition track2 : string := "incoming/album/track2.flac".

Definition flaky : Oracle := {|
  o_time := fun t => if (t <? 10)%nat then 100 else 200;
  o_exists := fun _ _ => Ok true;
  o_stat := fun t p =>
    if (10 <=? t)%nat && String.eqb p track2 then Raise PermissionError
    else Ok {| st_size := 10; st_mtime := 95 |};
  o_is_file := fun _ _ => Ok true;
  o_run := fun _ _ _ _ => exit0;
  o_post := fun _ _ _ _ _ => Ok 204
|}.

End Sample.

(** ** Vocabulary of the statements *)

(** [advance n evs s]: the state [s] after [n] further queries to the
    environment and the effects [evs]; both containers untouched. *)
Definition advance (n : nat) (evs : list Event) (s : State) : State :=
  {| pending_imports := pending_imports s;
     processed_files := processed_files s;
     tick := (n + tick s)%nat;
     trace := trace s ++ evs |}.

(** The promotion condition in the words of the specification: the quiet
    period has elapsed since the entry was first seen, the file exists, has
    a size greater than zero, and was last modified at least the settle
    margin (5) ago.  [ex] and [st] are what the filesystem answers for a
    path during the poll. *)
Definition promotable {PL : PathLib} (quiet_period now : Z)
  (ex : string -> answer bool) (st : string -> answer stat_result)
  (entry : string * Z) : bool :=
  bool_decide (quiet_period <= now - entry.2) &&
  match ex (path_str entry.1), st (path_str entry.1) with
  | Ok true, Ok f =>
      bool_decide (0 < st_size f) && bool_decide (5 <= now - st_mtime f)
  | _, _ => false
  end.

(** [grows s s']: from [s] to [s'] the processed set only gained paths, and
    every successful import logged in between was of a path that was not
    yet processed in [s], is processed in [s'], and was imported once. *)
Definition grows {PL : PathLib} (s s' : State) : Prop :=
  processed_files s ⊆ processed_files s' ∧
  ∃ evs, trace s' = trace s ++ evs ∧
         NoDup (successes evs) ∧
         (∀ k, k ∈ successes evs →
               (k ∉ processed_files s) ∧ k ∈ processed_files s').

(** The effects of the steps around [process_file]: the sleeps, and the
    two log lines of [handle_file]. *)
Definition incidental (ev : Event) : bool :=
  match ev with
  | Sleep _ | Log _ (MsgNewWaiting _) | Log _ (MsgLocked _ _) => true
  | _ => false
  end.

(** Whether the Rescan Notifier has what it needs: an API key and a
    server URL, both non-empty. *)
Definition rescan_configured (CONFIG : Config) : bool :=
  truthy_opt (jellyfin_api_key CONFIG) && truthy (jellyfin_url CONFIG).

(** The functions of the program are unfolded by name only. *)
Arguments trigger_jellyfin_rescan : simpl never.
Arguments process_file : simpl never.
Arguments handle_file : simpl never.
Arguments process_pending : simpl never.
Arguments on_closed : simpl never.

(** Unfolding of the monadic layer. *)
Ltac run :=
  unfold requests_post, subprocess_run, logger, time_sleep,
    path_is_file, path_stat, path_exists, time_time, pending_set, pending_del,
    processed_add, put_pending, get_pending, get_processed, ask, emit,
    try_except, bind, ret, raise, next_tick, advance in *;
  simpl in *.

Ltac cases := repeat (case_match; simpl in *; simplify_eq).

(** Brings the trace of a computed state in the form [trace s ++ evs]. *)
Ltac flat := rewrite <- ?app_assoc; cbn [app].

(** ** Lemmas on strings, dictionaries and traces *)

Lemma append_cons (c : Ascii.ascii) (a b : string) :
  String c a +:+ b = String c (a +:+ b).
Proof. reflexivity. Qed.

Lemma string_prefix_spec (a b : string) :
  String.prefix a b = true ↔ ∃ post, b = a +:+ post.
Proof.
  revert b. induction a as [|c a IH]; intros b; simpl.
  - split; [intros _; by exists b | by destruct b].
  - destruct b as [|c' b]; simpl.
    + split; [done | intros [post Hp]; rewrite append_cons in Hp; discriminate].
    + destruct (Ascii.ascii_dec c c') as [->|Hne].
      * rewrite IH. split; intros [post Hp]; exists post;
          rewrite append_cons in *; congruence.
      * split; [done | intros [post Hp]; rewrite append_cons in Hp; congruence].
Qed.


Lemma str_in_unfold (needle hay : string) :
  str_in needle hay =
  String.prefix needle hay ||
  match hay with EmptyString => false | String _ rest => str_in needle rest end.
Proof. by destruct hay. Qed.

(** [str_in] is the substring test. *)
Lemma str_in_spec (needle hay : string) :
  str_in needle hay = true ↔ ∃ pre post, hay = pre +:+ needle +:+ post.
Proof.
  induction hay as [|c hay IH]; rewrite str_in_unfold.
  - rewrite orb_false_r, string_prefix_spec. split.
    + intros [post Hp]. by exists "", post.
    + intros [pre [post Hp]]. destruct pre.
      * by exists post.
      * rewrite append_cons in Hp. discriminate.
  - rewrite orb_true_iff, string_prefix_spec, IH. split.
    + intros [[post Hp] | [pre [post Hp]]].
      * by exists "", post.
      * exists (String c pre), post. rewrite append_cons. by rewrite Hp.
    + intros [pre [post Hp]]. destruct pre as [|c' pre].
      * left. by exists post.
      * right. exists pre, post. rewrite append_cons in Hp. congruence.
Qed.

Lemma dispatched_app (a b : list Event) :
  dispatched (a ++ b) = dispatched a ++ dispatched b.
Proof. apply omap_app. Qed.

Lemma successes_app {PL : PathLib} (a b : list Event) :
  successes (a ++ b) = successes a ++ successes b.
Proof. apply omap_app. Qed.

Lemma rescans_app (a b : list Event) :
  rescans (a ++ b) = (rescans a + rescans b)%nat.
Proof. unfold rescans. by rewrite List.filter_app, length_app. Qed.

Lemma import_runs_app (a b : list Event) :
  import_runs (a ++ b) = (import_runs a + import_runs b)%nat.
Proof. unfold import_runs. by rewrite List.filter_app, length_app. Qed.

Lemma posts_app (a b : list Event) :
  posts (a ++ b) = (posts a + posts b)%nat.
Proof. unfold posts. by rewrite List.filter_app, length_app. Qed.

Lemma dict_get_set (k : string) (v : Z) (d : list (string * Z)) :
  dict_get k (dict_set k v d) = Some v.
Proof.
  induction d as [|[k' v'] d IH]; simpl.
  - by rewrite bool_decide_eq_true_2.
  - case_bool_decide as Hk; simpl.
    + by rewrite bool_decide_eq_true_2.
    + by rewrite bool_decide_eq_false_2.
Qed.

Lemma dict_get_set_ne (k k' : string) (v : Z) (d : list (string * Z)) :
  k' ≠ k → dict_get k' (dict_set k v d) = dict_get k' d.
Proof.
  intros Hne. induction d as [|[k0 v0] d IH]; simpl.
  - by rewrite bool_decide_eq_false_2.
  - case_bool_decide as Hk; simpl.
    + subst k0. by rewrite !bool_decide_eq_false_2.
    + by rewrite IH.
Qed.

(** Assignment keeps the order of the keys; a new key goes last. *)
Lemma dict_set_keys (k : string) (v : Z) (d : list (string * Z)) :
  (dict_set k v d).*1 = if dict_mem k d then d.*1 else d.*1 ++ [k].
Proof.
  unfold dict_mem. induction d as [|[k' v'] d IH]; [done |].
  cbn [dict_set]. rewrite !fmap_cons. cbn [fst].
  destruct (decide (k' = k)) as [->|Hne].
  - rewrite (bool_decide_eq_true_2 (k = k)) by done. 
    rewrite bool_decide_eq_true_2; [done | by left].
  - rewrite (bool_decide_eq_false_2 (k' = k)) by done. rewrite fmap_cons, IH. cbn [fst].
    destruct (decide (k ∈ d.*1)) as [Hin|Hin].
    + rewrite !bool_decide_eq_true_2; [done | by right | done].
    + rewrite !bool_decide_eq_false_2; [done | | done].
      intros [?|?]%elem_of_cons; congruence.
Qed.

Lemma dict_set_NoDup (k : string) (v : Z) (d : list (string * Z)) :
  NoDup d.*1 → NoDup (dict_set k v d).*1.
Proof.
  intros Hd. rewrite dict_set_keys. unfold dict_mem.
  case_bool_decide as Hk; [done |].
  apply NoDup_app. split_and!; [done | | apply NoDup_singleton].
  intros x Hx Hx'. apply list_elem_of_singleton in Hx'. by subst.
Qed.

Lemma dict_del_missing (k : string) (d : list (string * Z)) :
  k ∉ d.*1 → dict_del k d = None.
Proof.
  induction d as [|[k' v'] d IH]; simpl; intros Hk; [done |].
  apply not_elem_of_cons in Hk as [Hne Hk].
  rewrite bool_decide_eq_false_2 by congruence. by rewrite IH.
Qed.

(** ** Shape of the two leaf functions *)

Section Shapes.

Context {PL : PathLib}.
Variable CONFIG : Config.
Variable world : Oracle.

(** [trigger_jellyfin_rescan] always returns, touches neither container,
    and sends at most one request. *)
Lemma trigger_jellyfin_rescan_shape (s : State) :
  ∃ n evs,
    trigger_jellyfin_rescan CONFIG world s
    = (Returned tt, advance n (Enter_trigger_jellyfin_rescan :: evs) s) ∧
    dispatched evs = [] ∧ successes evs = [] ∧ rescans evs = 0%nat ∧
    import_runs evs = 0%nat ∧ (posts evs ≤ 1)%nat.
Proof.
  unfold trigger_jellyfin_rescan. run.
  cases; flat;
    (first [ exists 0%nat; eexists; split; [reflexivity |]
           | exists 1%nat; eexists; split; [reflexivity |] ]);
    cbn; split_and!; auto with lia.
Qed.

(** [process_file] always returns and leaves [pending_imports] alone.
    Either the processed set is unchanged and no success is logged, or the
    path was not processed before, is added, and exactly one success, one
    import run and one rescan are recorded. *)
Lemma process_file_shape (file_path : string) (s : State) :
  ∃ n evs P',
    process_file CONFIG world file_path s
    = (Returned tt,
       {| pending_imports := pending_imports s;
          processed_files := P';
          tick := (n + tick s)%nat;
          trace := trace s ++ Enter_process_file file_path :: evs |}) ∧
    dispatched evs = [] ∧
    ((P' = processed_files s ∧ successes evs = [] ∧ rescans evs = 0%nat ∧
      posts evs = 0%nat)
     ∨ ((path_str file_path ∉ processed_files s) ∧
        P' = {[path_str file_path]} ∪ processed_files s ∧
        successes evs = [path_str file_path] ∧ rescans evs = 1%nat ∧
        import_runs evs = 1%nat)).
Proof.
  unfold process_file. run.
  case_bool_decide as Hin; cbn.
  { exists 0%nat, [], (processed_files s). cbn. auto 10. }
  destruct (o_is_file world (tick s) (path_str file_path)) as [isf|e]; cbn.
  2: { destruct e; cbn; flat; exists 1%nat; do 2 eexists;
       (split; [reflexivity |]); cbn; auto 10. }
  match goal with |- context [o_run world ?t ?c ?to ?d] =>
    destruct (o_run world t c to d) as [r|e] end; cbn.
  2: { destruct e; cbn; flat; exists 2%nat; do 2 eexists;
       (split; [reflexivity |]); cbn; auto 10. }
  destruct (import_succeeded r); cbn.
  - match goal with |- context [trigger_jellyfin_rescan CONFIG world ?s0] =>
      destruct (trigger_jellyfin_rescan_shape s0)
        as (n & evs & -> & Hd & Hs & Hr & Hi & Hp) end.
    unfold advance. cbn. flat. exists (n + 2)%nat. do 2 eexists. split.
    { rewrite <- Nat.add_assoc. reflexivity. }
    unfold dispatched, successes, rescans, import_runs, posts in *.
    cbn. rewrite Hd, Hs, Hr, Hi. auto 10.
  - flat. exists 2%nat. do 2 eexists. split; [reflexivity |]. cbn. auto 10.
Qed.

End Shapes.

(** ** The processed set only grows, and logs one success per path *)

Section Growth.

Context {PL : PathLib}.
Variable CONFIG : Config.
Variable world : Oracle.

Lemma grows_refl (s : State) : grows s s.
Proof.
  split; [done |]. exists []. rewrite app_nil_r. split_and!; [done | constructor |].
  intros k Hk. by apply elem_of_nil in Hk.
Qed.

Lemma grows_trans (s1 s2 s3 : State) : grows s1 s2 → grows s2 s3 → grows s1 s3.
Proof.
  intros [Hsub1 (evs1 & Ht1 & Hnd1 & Hk1)] [Hsub2 (evs2 & Ht2 & Hnd2 & Hk2)].
  split; [by etrans |]. exists (evs1 ++ evs2). split_and!.
  - by rewrite Ht2, Ht1, app_assoc.
  - rewrite successes_app. apply NoDup_app. split_and!; [done | | done].
    intros k Hin1 Hin2. destruct (Hk1 k Hin1), (Hk2 k Hin2). done.
  - intros k. rewrite successes_app, elem_of_app. intros [Hin | Hin].
    + destruct (Hk1 k Hin). split; [done | by apply Hsub2].
    + destruct (Hk2 k Hin) as [Hn Hy]. split; [| done].
      intros Hin1. by apply Hn, Hsub1.
Qed.

(** A step that leaves the processed set alone and logs no success. *)
Lemma grows_quiet (s s' : State) (evs : list Event) :
  processed_files s' = processed_files s →
  trace s' = trace s ++ evs → successes evs = [] → grows s s'.
Proof.
  intros HP Ht Hs. split; [by rewrite HP |]. exists evs. rewrite Hs.
  split_and!; [done | constructor |]. intros k Hk. by apply elem_of_nil in Hk.
Qed.

Lemma process_file_grows (file_path : string) (s : State) :
  grows s (process_file CONFIG world file_path s).2.
Proof.
  destruct (process_file_shape CONFIG world file_path s)
    as (n & evs & P' & -> & Hd & [(-> & Hs & _) | (Hnin & -> & Hs & _)]); cbn.
  - by eapply grows_quiet.
  - split; [cbn; apply union_subseteq_r |]. eexists. split; [reflexivity |].
    unfold successes in *. cbn. rewrite Hs. split; [apply NoDup_singleton |].
    intros k ->%list_elem_of_singleton. cbn. split; [done |].
    apply elem_of_union_l. by apply elem_of_singleton.
Qed.

Lemma trigger_jellyfin_rescan_grows (s : State) :
  grows s (trigger_jellyfin_rescan CONFIG world s).2.
Proof.
  destruct (trigger_jellyfin_rescan_shape CONFIG world s)
    as (n & evs & -> & Hd & Hs & _).
  by eapply grows_quiet.
Qed.

Ltac quiet_step :=
  eapply grows_quiet;
  [ reflexivity
  | cbn; first [reflexivity | symmetry; apply app_nil_r]
  | reflexivity ].

Ltac use_process_file_grows :=
  match goal with
  | H : process_file ?C ?w ?p ?st = (_, ?s0) |- _ =>
      let Hg := fresh "Hg" in
      pose proof (process_file_grows p st) as Hg; rewrite H in Hg; cbn in Hg
  end.

Lemma handle_file_grows (file_path : string) (s : State) :
  grows s (handle_file CONFIG world file_path s).2.
Proof.
  unfold handle_file. run.
  cases; try apply grows_refl; try quiet_step; use_process_file_grows.
  - eapply grows_trans; [| exact Hg]. quiet_step.
  - eapply grows_trans; [eapply grows_trans; [| exact Hg] |]; quiet_step.
  - eapply grows_trans; [| exact Hg]. quiet_step.
Qed.

(** The first loop of [process_pending] only queries the filesystem. *)
Lemma check_pending_frame (now : Z) (item : string * Z) (acc : list string)
  (s : State) :
  ∃ n, (check_pending CONFIG world now item acc s).2 = advance n [] s.
Proof.
  unfold check_pending. destruct item as [file_path added_time]. run.
  cases;
    first [ by exists 0%nat; rewrite app_nil_r; destruct s
          | by exists 1%nat; rewrite app_nil_r
          | by exists 2%nat; rewrite app_nil_r
          | by exists 3%nat; rewrite app_nil_r ].
Qed.

Lemma scan_pending_frame (now : Z) (items : list (string * Z))
  (acc : list string) (s : State) :
  ∃ n, (scan_pending CONFIG world now items acc s).2 = advance n [] s.
Proof.
  revert acc s. induction items as [|item items IH]; intros acc s; cbn.
  - exists 0%nat. unfold advance. rewrite app_nil_r. by destruct s.
  - unfold bind.
    destruct (check_pending_frame now item acc s) as [n Hn].
    destruct (check_pending CONFIG world now item acc s) as [[acc'|e] s1];
      cbn in Hn; subst s1.
    + destruct (IH acc' (advance n [] s)) as [m ->].
      exists (m + n)%nat. unfold advance. cbn.
      by rewrite !app_nil_r, Nat.add_assoc.
    + by exists n.
Qed.

Lemma import_ready_grows (to_process : list string) (s : State) :
  grows s (import_ready CONFIG world to_process s).2.
Proof.
  revert s. induction to_process as [|p rest IH]; intros s; cbn.
  - apply grows_refl.
  - run. destruct (dict_del p (pending_imports s)) as [d|]; cbn.
    2: apply grows_refl.
    match goal with |- context [process_file CONFIG world p ?st] =>
      pose proof (process_file_grows p st) as Hg;
      destruct (process_file CONFIG world p st) as [[[]|e] s1] end; cbn in *.
    + eapply grows_trans; [| apply IH].
      eapply grows_trans; [| exact Hg]. quiet_step.
    + eapply grows_trans; [| exact Hg]. quiet_step.
Qed.

Lemma process_pending_grows (s : State) :
  grows s (process_pending CONFIG world s).2.
Proof.
  unfold process_pending. run.
  match goal with |- context [scan_pending CONFIG world ?now ?items ?acc ?st] =>
    destruct (scan_pending_frame now items acc st) as [n Hn];
    destruct (scan_pending CONFIG world now items acc st) as [[l|e] s1] end;
    cbn in *; subst s1.
  - eapply grows_trans; [| apply import_ready_grows]. quiet_step.
  - quiet_step.
Qed.

Lemma on_closed_grows (event : FileSystemEvent) (s : State) :
  grows s (on_closed CONFIG world event s).2.
Proof.
  unfold on_closed. run. cases; try apply grows_refl.
  eapply grows_trans; [| apply process_file_grows]. quiet_step.
Qed.

Lemma exec_op_grows (op : Op) (s : State) :
  grows s (exec_op CONFIG world op s).2.
Proof.
  destruct op as [ev|ev|ev|]; cbn.
  - unfold on_created. destruct (is_directory ev);
      [apply grows_refl | apply handle_file_grows].
  - unfold on_modified. destruct (is_directory ev);
      [apply grows_refl | apply handle_file_grows].
  - apply on_closed_grows.
  - unfold poll_once. run.
    eapply grows_trans; [| apply process_pending_grows]. quiet_step.
Qed.

Lemma exec_ops_grows (ops : list Op) (s : State) :
  grows s (exec_ops CONFIG world ops s).
Proof.
  revert s. induction ops as [|op ops IH]; intros s; cbn.
  - apply grows_refl.
  - eapply grows_trans; [apply exec_op_grows | apply IH].
Qed.

End Growth.

(** ** The Rescan Notifier *)

(** C8.  [trigger_jellyfin_rescan] always returns normally, whatever the
    server answers (a status, a transport error, a timeout), and changes
    neither the processed set nor the pending set, so the membership that
    [process_file] established before calling it stands.  When the API key
    or the server URL is missing (unset or empty) it does nothing but log
    one warning: no request is sent and the environment is not queried. *)
Theorem trigger_jellyfin_rescan_contained
  (CONFIG : Config) (world : Oracle) (s : State) :
  let r := trigger_jellyfin_rescan CONFIG world s in
  r.1 = Returned tt ∧
  processed_files r.2 = processed_files s ∧
  pending_imports r.2 = pending_imports s ∧
  (posts (trace r.2) ≤ posts (trace s) + 1)%nat ∧
  (truthy_opt (jellyfin_api_key CONFIG) = false ∨
   truthy (jellyfin_url CONFIG) = false →
   ∃ msg, r.2 = advance 0 [Enter_trigger_jellyfin_rescan; Log WARNING msg] s).
Proof.
  cbn zeta. split_and!.
  - by destruct (trigger_jellyfin_rescan_shape CONFIG world s)
      as (n & evs & -> & _).
  - by destruct (trigger_jellyfin_rescan_shape CONFIG world s)
      as (n & evs & -> & _).
  - by destruct (trigger_jellyfin_rescan_shape CONFIG world s)
      as (n & evs & -> & _).
  - destruct (trigger_jellyfin_rescan_shape CONFIG world s)
      as (n & evs & -> & _ & _ & _ & _ & Hp).
    unfold advance. cbn [snd trace]. rewrite posts_app.
    change (posts (Enter_trigger_jellyfin_rescan :: evs)) with (posts evs). lia.
  - unfold trigger_jellyfin_rescan. run. intros [Hk | Hu].
    + rewrite Hk. cbn. flat. by exists MsgNoApiKey.
    + rewrite Hu. destruct (truthy_opt (jellyfin_api_key CONFIG)); cbn; flat.
      * by exists MsgNoUrl.
      * by exists MsgNoApiKey.
Qed.

Lemma trigger_jellyfin_rescan_contained_witness :
  let r := trigger_jellyfin_rescan Sample.config
             (Sample.steady 100 10 60 Sample.exit0 (Raise RequestException))
             initial_state in
  r.1 = Returned tt ∧ trace r.2 = [Enter_trigger_jellyfin_rescan; Log WARNING MsgNoApiKey].
Proof.
  pose proof (trigger_jellyfin_rescan_contained Sample.config
                (Sample.steady 100 10 60 Sample.exit0 (Raise RequestException))
                initial_state) as (H1 & _).
  split; [exact H1 | reflexivity].
Defined.

(** ** The Completion Detector *)

(** C2.  A path whose lower-cased suffix is not in [file_extensions] is
    dropped before anything else happens: [handle_file] returns the state
    it was given, so no pending entry is created, [process_file] is not
    entered, and not even the filesystem is consulted. *)
Theorem handle_file_ignores_other_extensions {PL : PathLib}
  (CONFIG : Config) (world : Oracle) (file_path : string) (s : State) :
  str_lower (path_suffix file_path) ∉ file_extensions CONFIG →
  handle_file CONFIG world file_path s = (Returned tt, s).
Proof.
  intros Hext. unfold handle_file.
  by rewrite bool_decide_eq_false_2.
Qed.

Lemma handle_file_ignores_other_extensions_witness :
  (str_lower (PathLib := Sample.posix) (path_suffix "incoming/album/cover.JPG")
     ∉ file_extensions Sample.config) ∧
  handle_file (PL := Sample.posix) Sample.config
    (Sample.steady 100 10 60 Sample.exit0 (Ok 204))
    "incoming/album/cover.JPG" initial_state
  = (Returned tt, initial_state).
Proof.
  assert (Hext : str_lower (PathLib := Sample.posix)
                   (path_suffix "incoming/album/cover.JPG")
                 ∉ file_extensions Sample.config).
  { intros Hin. pose proof (bool_decide_pack _ Hin) as Hb.
    vm_compute in Hb. exact Hb. }
  split; [exact Hext |].
  apply (handle_file_ignores_other_extensions (PL := Sample.posix)). exact Hext.
Defined.

(** C3.  A path that passes every rejection check of [handle_file] (media
    suffix, exists, non-zero size, not yet processed) and whose
    modification time can be read has [age = time.time() - st_mtime].
    - If [age] is at least [watch_delay], [handle_file] is [process_file]
      on that path at once: the pending set is left as it was and exactly
      one dispatch is recorded.
    - If [age] is below [watch_delay], the pending set gets the entry
      [str(path) -> time.time()] (read anew, replacing the timestamp of an
      entry already there), one line is logged, and [process_file] is not
      entered. *)
Theorem handle_file_quiet_period {PL : PathLib}
  (CONFIG : Config) (world : Oracle) (file_path : string) (s : State)
  (st0 st : stat_result) :
  str_lower (path_suffix file_path) ∈ file_extensions CONFIG →
  o_exists world (tick s) (path_str file_path) = Ok true →
  o_stat world (1 + tick s) (path_str file_path) = Ok st0 →
  st_size st0 ≠ 0 →
  path_str file_path ∉ processed_files s →
  o_stat world (2 + tick s) (path_str file_path) = Ok st →
  let age := o_time world (3 + tick s) - st_mtime st in
  let now' := o_time world (4 + tick s) in
  let r := handle_file CONFIG world file_path s in
  (watch_delay CONFIG ≤ age →
   r = process_file CONFIG world file_path (advance 4 [] s) ∧
   pending_imports r.2 = pending_imports s ∧
   dispatched (trace r.2) = dispatched (trace s) ++ [file_path])
  ∧
  (age < watch_delay CONFIG →
   r = (Returned tt,
        {| pending_imports :=
             dict_set (path_str file_path) now' (pending_imports s);
           processed_files := processed_files s;
           tick := (5 + tick s)%nat;
           trace := trace s ++ [Log INFO (MsgNewWaiting file_path)] |}) ∧
   dict_get (path_str file_path) (pending_imports r.2) = Some now' ∧
   dispatched (trace r.2) = dispatched (trace s) ∧
   import_runs (trace r.2) = import_runs (trace s)).
Proof.
  intros Hext Hex Hst0 Hsize Hproc Hst age now' r.
  assert (Hr : r =
    if age <? watch_delay CONFIG then
      (Returned tt,
        {| pending_imports :=
             dict_set (path_str file_path) now' (pending_imports s);
           processed_files := processed_files s;
           tick := (5 + tick s)%nat;
           trace := trace s ++ [Log INFO (MsgNewWaiting file_path)] |})
    else process_file CONFIG world file_path (advance 4 [] s)).
  { subst r age now'. unfold handle_file. run.
    rewrite bool_decide_eq_true_2 by done. cbn.
    rewrite Hex. cbn. rewrite Hst0. cbn.
    rewrite (proj2 (Z.eqb_neq _ _) Hsize).
    rewrite bool_decide_eq_false_2 by done. cbn. rewrite Hst. cbn.
    destruct (_ <? _); cbn; [reflexivity |].
    rewrite app_nil_r.
    match goal with |- context [process_file CONFIG world file_path ?st1] =>
      destruct (process_file_shape CONFIG world file_path st1)
        as (n & evs & P' & -> & _) end.
    reflexivity. }
  split; intros Hage.
  - rewrite (proj2 (Z.ltb_ge _ _) Hage) in Hr. split; [exact Hr |].
    rewrite Hr.
    destruct (process_file_shape CONFIG world file_path (advance 4 [] s))
      as (n & evs & P' & -> & Hd & _).
    cbn [snd pending_imports trace advance]. split; [done |].
    rewrite app_nil_r, dispatched_app.
    change (dispatched (Enter_process_file file_path :: evs))
      with (file_path :: dispatched evs).
    by rewrite Hd.
  - rewrite (proj2 (Z.ltb_lt _ _) Hage) in Hr. split; [exact Hr |].
    rewrite Hr. cbn [snd pending_imports trace].
    split; [apply dict_get_set |].
    by rewrite dispatched_app, import_runs_app, app_nil_r, Nat.add_0_r.
Qed.

Lemma handle_file_quiet_period_witness :
  let world := Sample.steady 100 10 60 Sample.exit0 (Ok 204) in
  let r := handle_file (PL := Sample.posix) Sample.config world
             "incoming/album/track.flac" initial_state in
  r = process_file (PL := Sample.posix) Sample.config world
        "incoming/album/track.flac" (advance 4 [] initial_state) ∧
  pending_imports r.2 = [] ∧
  dispatched (trace r.2) = ["incoming/album/track.flac"].
Proof.
  cbn zeta.
  refine (proj1 (handle_file_quiet_period (PL := Sample.posix) Sample.config
           (Sample.steady 100 10 60 Sample.exit0 (Ok 204))
           "incoming/album/track.flac" initial_state
           {| st_size := 10; st_mtime := 60 |} {| st_size := 10; st_mtime := 60 |}
           _ eq_refl eq_refl _ _ eq_refl) _).
  - apply (bool_decide_unpack _). vm_compute. exact I.
  - cbn. lia.
  - intros Hin. pose proof (bool_decide_pack _ Hin) as Hb.
    vm_compute in Hb. exact Hb.
  - cbn. lia.
Defined.

(** ** The Import Dispatcher *)

(** What [process_file] does once beets has answered, for a path that is
    not yet processed. *)
Lemma process_file_completed {PL : PathLib}
  (CONFIG : Config) (world : Oracle) (file_path : string) (s : State)
  (is_file : bool) (r : CompletedProcess) :
  path_str file_path ∉ processed_files s →
  o_is_file world (tick s) (path_str file_path) = Ok is_file →
  o_run world (1 + tick s)
    (beets_cmd CONFIG
       (if is_file then path_parent file_path else path_str file_path))
    600 (script_dir CONFIG) = Ok r →
  let run_ev :=
    SubprocessRun
      (beets_cmd CONFIG
         (if is_file then path_parent file_path else path_str file_path))
      600 (script_dir CONFIG) in
  process_file CONFIG world file_path s =
  if import_succeeded r then
    trigger_jellyfin_rescan CONFIG world
      {| pending_imports := pending_imports s;
         processed_files := {[path_str file_path]} ∪ processed_files s;
         tick := (2 + tick s)%nat;
         trace := trace s ++
                  [Enter_process_file file_path;
                   Log INFO (MsgProcessing file_path); run_ev;
                   Log INFO (MsgSuccess file_path)] |}
  else
    (Returned tt,
     advance 2
       [Enter_process_file file_path; Log INFO (MsgProcessing file_path);
        run_ev; Log WARNING (MsgNonZero file_path);
        Log DEBUG (MsgBeetsOutput (stdout r));
        Log DEBUG (MsgBeetsError (stderr r))] s).
Proof.
  intros Hproc Hisf Hrun run_ev. subst run_ev.
  unfold process_file. run.
  rewrite bool_decide_eq_false_2 by done. cbn.
  rewrite Hisf. cbn. rewrite Hrun. cbn.
  destruct (import_succeeded r); cbn; flat.
  - match goal with |- context [trigger_jellyfin_rescan CONFIG world ?st] =>
      destruct (trigger_jellyfin_rescan_shape CONFIG world st)
        as (n & evs & -> & _) end.
    reflexivity.
  - reflexivity.
Qed.

Lemma import_succeeded_spec (r : CompletedProcess) :
  import_succeeded r = true ↔
  returncode r = 0 ∨
  (∃ pre post, stdout r = pre +:+ "Skipping" +:+ post) ∨
  (∃ pre post, stdout r = pre +:+ "not match" +:+ post).
Proof.
  unfold import_succeeded.
  rewrite !orb_true_iff, Z.eqb_eq, !str_in_spec. tauto.
Qed.

(** C5.  For a path not yet processed on which beets was run to completion:
    the run counts as a success exactly when the exit status is zero or the
    captured standard output contains [Skipping] or [not match].  On
    success the path is added to the processed set, the success is logged
    and [trigger_jellyfin_rescan] is entered exactly once.  Otherwise the
    processed set is unchanged, no rescan is triggered and no request is
    sent. *)
Theorem process_file_classifies {PL : PathLib}
  (CONFIG : Config) (world : Oracle) (file_path : string) (s : State)
  (is_file : bool) (r : CompletedProcess) :
  path_str file_path ∉ processed_files s →
  o_is_file world (tick s) (path_str file_path) = Ok is_file →
  o_run world (1 + tick s)
    (beets_cmd CONFIG
       (if is_file then path_parent file_path else path_str file_path))
    600 (script_dir CONFIG) = Ok r →
  let success :=
    returncode r = 0 ∨
    (∃ pre post, stdout r = pre +:+ "Skipping" +:+ post) ∨
    (∃ pre post, stdout r = pre +:+ "not match" +:+ post) in
  let s' := (process_file CONFIG world file_path s).2 in
  (success →
   processed_files s' = {[path_str file_path]} ∪ processed_files s ∧
   rescans (trace s') = (rescans (trace s) + 1)%nat ∧
   successes (trace s') = successes (trace s) ++ [path_str file_path])
  ∧
  (¬ success →
   processed_files s' = processed_files s ∧
   rescans (trace s') = rescans (trace s) ∧
   posts (trace s') = posts (trace s) ∧
   successes (trace s') = successes (trace s)).
Proof.
  intros Hproc Hisf Hrun success s'. subst s'.
  rewrite (process_file_completed CONFIG world file_path s is_file r)
    by assumption.
  split; intros Hs.
  - apply import_succeeded_spec in Hs. rewrite Hs.
    match goal with |- context [trigger_jellyfin_rescan CONFIG world ?st] =>
      destruct (trigger_jellyfin_rescan_shape CONFIG world st)
        as (n & evs & -> & Hd & Hsu & Hr & _) end.
    unfold advance. cbn [snd processed_files trace]. split; [done |].
    unfold rescans, successes in *.
    rewrite !List.filter_app, !length_app, !omap_app. cbn.
    rewrite Hr, Hsu, app_nil_r. split; [lia | done].
  - destruct (import_succeeded r) eqn:Hok.
    { exfalso. by apply Hs, import_succeeded_spec. }
    unfold advance. cbn [snd processed_files trace]. split; [done |].
    unfold rescans, posts, successes.
    rewrite !List.filter_app, !length_app, !omap_app. cbn.
    by rewrite !Nat.add_0_r, app_nil_r.
Qed.

Lemma process_file_classifies_witness :
  let s' := (process_file (PL := Sample.posix) Sample.config_with_key
               (Sample.steady 100 10 60 Sample.exit1_skipped (Ok 500))
               "incoming/album/track.flac" initial_state).2 in
  processed_files s' = {[ "incoming/album/track.flac" ]} ∪ ∅ ∧
  rescans (trace s') = 1%nat ∧
  successes (PL := Sample.posix) (trace s') = ["incoming/album/track.flac"].
Proof.
  cbn zeta.
  refine (proj1 (process_file_classifies (PL := Sample.posix)
           Sample.config_with_key
           (Sample.steady 100 10 60 Sample.exit1_skipped (Ok 500))
           "incoming/album/track.flac" initial_state true
           {| returncode := 1; stdout := "Skipping."; stderr := "" |}
           _ eq_refl eq_refl) _).
  - intros Hin. pose proof (bool_decide_pack _ Hin) as Hb.
    vm_compute in Hb. exact Hb.
  - right. left. by exists "", ".".
Defined.

(** C6.  When the beets subprocess raises (the timeout of 600 expiring, or
    any exception of the launch), [process_file] returns normally with both
    containers as they were; no rescan is triggered and no request is sent.
    A timeout on a path not yet processed ends with the error line
    [Timeout processing ...]. *)
Theorem process_file_import_error {PL : PathLib}
  (CONFIG : Config) (world : Oracle) (file_path : string) (s : State)
  (is_file : bool) (e : exn) :
  o_is_file world (tick s) (path_str file_path) = Ok is_file →
  o_run world (1 + tick s)
    (beets_cmd CONFIG
       (if is_file then path_parent file_path else path_str file_path))
    600 (script_dir CONFIG) = Raise e →
  let r := process_file CONFIG world file_path s in
  r.1 = Returned tt ∧
  processed_files r.2 = processed_files s ∧
  pending_imports r.2 = pending_imports s ∧
  rescans (trace r.2) = rescans (trace s) ∧
  posts (trace r.2) = posts (trace s) ∧
  successes (trace r.2) = successes (trace s) ∧
  (path_str file_path ∉ processed_files s → e = TimeoutExpired →
   last (trace r.2) = Some (Log ERROR (MsgTimeout file_path))).
Proof.
  intros Hisf Hrun r. subst r. unfold process_file. run.
  case_bool_decide as Hin; cbn.
  { unfold rescans, posts, successes.
    rewrite !List.filter_app, !length_app, !omap_app. cbn.
    rewrite !Nat.add_0_r, app_nil_r. by split_and!. }
  rewrite Hisf. cbn. rewrite Hrun. cbn.
  unfold rescans, posts, successes.
  destruct e; cbn; flat;
    rewrite ?List.filter_app, ?length_app, ?omap_app; cbn;
    rewrite ?Nat.add_0_r, ?app_nil_r; split_and!; try done.
  intros _ _.
  match goal with |- last (?a ++ ?l) = _ =>
    change l with ([Enter_process_file file_path; Log INFO (MsgProcessing file_path);
      SubprocessRun (beets_cmd CONFIG (if is_file then path_parent file_path else path_str file_path)) 600 (script_dir CONFIG)] ++ [Log ERROR (MsgTimeout file_path)]) end.
  by rewrite app_assoc, last_snoc.
Qed.

Lemma process_file_import_error_witness :
  let r := process_file (PL := Sample.posix) Sample.config
             (Sample.steady 100 10 60 (Raise TimeoutExpired) (Ok 204))
             "incoming/album/track.flac" initial_state in
  r.1 = Returned tt ∧ processed_files r.2 = ∅ ∧ rescans (trace r.2) = 0%nat.
Proof.
  cbn zeta.
  pose proof (process_file_import_error (PL := Sample.posix) Sample.config
                (Sample.steady 100 10 60 (Raise TimeoutExpired) (Ok 204))
                "incoming/album/track.flac" initial_state true TimeoutExpired
                eq_refl eq_refl) as (H1 & H2 & _ & H3 & _).
  split_and!; [exact H1 | exact H2 | exact H3].
Defined.

(** ** The Processed Record *)

(** C9.  No function of the program removes a path from [processed_files]:
    the set after [handle_file], [process_pending], [process_file],
    [trigger_jellyfin_rescan], after any single callback or poll, and after
    any history of them, contains the set before. *)
Theorem processed_files_only_grows {PL : PathLib}
  (CONFIG : Config) (world : Oracle) :
  (∀ file_path s,
     processed_files s ⊆ processed_files (handle_file CONFIG world file_path s).2) ∧
  (∀ s, processed_files s ⊆ processed_files (process_pending CONFIG world s).2) ∧
  (∀ file_path s,
     processed_files s ⊆ processed_files (process_file CONFIG world file_path s).2) ∧
  (∀ s, processed_files s ⊆ processed_files (trigger_jellyfin_rescan CONFIG world s).2) ∧
  (∀ op s, processed_files s ⊆ processed_files (exec_op CONFIG world op s).2) ∧
  (∀ ops s path,
     path ∈ processed_files s →
     path ∈ processed_files (exec_ops CONFIG world ops s)).
Proof.
  split_and!.
  - intros p s. apply handle_file_grows.
  - intros s. apply process_pending_grows.
  - intros p s. apply process_file_grows.
  - intros s. apply (trigger_jellyfin_rescan_grows CONFIG world s).
  - intros op s. apply exec_op_grows.
  - intros ops s path Hin. by apply (exec_ops_grows CONFIG world ops s).
Qed.

(** C1, as amended.  For a path whose key [str(path)] is in
    [processed_files] when the call starts:
    - [process_file] returns at once, with no effect at all, and already
      its first half [process_file_launch] starts nothing;
    - [handle_file] changes neither container and has no effect, and it
      returns normally whenever the [exists()] and [stat()] of lines 88-89
      answer;
    - a created, modified or closed notification for it runs no import,
      triggers no rescan and changes neither container, and [on_closed]
      returns normally;
    - in every serial history, where callbacks and polls run one after the
      other, no import of it is logged as successful again, and from the
      start of the program the successful imports of a serial history are
      of pairwise different keys.
    Histories in which two dispatches of one path overlap are not covered:
    there both can succeed ([overlapping_dispatches_import_twice]). *)
Theorem processed_path_is_ignored {PL : PathLib}
  (CONFIG : Config) (world : Oracle) (file_path : string) (s : State) :
  path_str file_path ∈ processed_files s →
  process_file CONFIG world file_path s
  = (Returned tt, advance 0 [Enter_process_file file_path] s)
  ∧
  process_file_launch CONFIG world file_path s
  = (Returned None, advance 0 [Enter_process_file file_path] s)
  ∧
  (let s1 := (handle_file CONFIG world file_path s).2 in
   pending_imports s1 = pending_imports s ∧
   processed_files s1 = processed_files s ∧
   trace s1 = trace s)
  ∧
  ((∀ e, o_exists world (tick s) (path_str file_path) ≠ Raise e) →
   (∀ e, o_stat world (1 + tick s) (path_str file_path) ≠ Raise e) →
   (handle_file CONFIG world file_path s).1 = Returned tt)
  ∧
  (∀ is_dir op,
     op ∈ [Created (mkEvent is_dir file_path);
           Modified (mkEvent is_dir file_path);
           Closed (mkEvent is_dir file_path)] →
     let s1 := (exec_op CONFIG world op s).2 in
     pending_imports s1 = pending_imports s ∧
     processed_files s1 = processed_files s ∧
     import_runs (trace s1) = import_runs (trace s) ∧
     rescans (trace s1) = rescans (trace s))
  ∧
  (∀ is_dir,
     (exec_op CONFIG world (Closed (mkEvent is_dir file_path)) s).1
     = Returned tt)
  ∧
  (∀ ops,
     path_str file_path
     ∉ successes (drop (length (trace s)) (trace (exec_ops CONFIG world ops s))))
  ∧
  (∀ ops, NoDup (successes (trace (exec_ops CONFIG world ops initial_state)))).
Proof.
  intros Hin.
  assert (Hpf : ∀ st, processed_files st = processed_files s →
                process_file CONFIG world file_path st
                = (Returned tt, advance 0 [Enter_process_file file_path] st)).
  { intros st Hst. unfold process_file. run.
    rewrite Hst. by rewrite bool_decide_eq_true_2. }
  assert (Hhf : let s1 := (handle_file CONFIG world file_path s).2 in
                pending_imports s1 = pending_imports s ∧
                processed_files s1 = processed_files s ∧
                trace s1 = trace s).
  { unfold handle_file. run.
    destruct (negb _); cbn; [done |].
    destruct (o_exists world (tick s) (path_str file_path)) as [[|]|e]; cbn;
      try done.
    destruct (o_stat world (S (tick s)) (path_str file_path)) as [st|e]; cbn;
      try done.
    destruct (st_size st =? 0); cbn; [done |].
    by rewrite bool_decide_eq_true_2. }
  split_and!; [by apply Hpf | | exact Hhf | | | | |].
  - unfold process_file_launch. run. by rewrite bool_decide_eq_true_2.
  - intros Hex Hst. unfold handle_file. run.
    destruct (negb _); cbn; [done |].
    destruct (o_exists world (tick s) (path_str file_path)) as [[|]|e] eqn:E;
      cbn; [| done | by destruct (Hex e)].
    destruct (o_stat world (S (tick s)) (path_str file_path)) as [st|e] eqn:E';
      cbn; [| by destruct (Hst e)].
    destruct (st_size st =? 0); cbn; [done |].
    by rewrite bool_decide_eq_true_2.
  - intros is_dir op Hop. cbn zeta.
    apply elem_of_cons in Hop as [-> | Hop];
      [| apply elem_of_cons in Hop as [-> | Hop];
         [| apply list_elem_of_singleton in Hop as ->]]; cbn.
    + unfold on_created. cbn. destruct is_dir; [done |].
      destruct Hhf as (H1 & H2 & H3). by rewrite H1, H2, H3.
    + unfold on_modified. cbn. destruct is_dir; [done |].
      destruct Hhf as (H1 & H2 & H3). by rewrite H1, H2, H3.
    + unfold on_closed. run. destruct is_dir; [done |].
      destruct (dict_mem file_path (pending_imports s)); cbn; [| done].
      rewrite Hpf by done.
      unfold advance. cbn [snd pending_imports processed_files trace].
      unfold import_runs, rescans.
      rewrite !List.filter_app, !length_app. cbn. split_and!; [done | done | lia | lia].
  - intros is_dir. cbn. unfold on_closed. run. destruct is_dir; [done |].
    destruct (dict_mem file_path (pending_imports s)); cbn; [| done].
    by rewrite Hpf.
  - intros ops.
    destruct (exec_ops_grows CONFIG world ops s) as [_ (evs & -> & _ & Hk)].
    rewrite drop_app_length. intros Hs. by destruct (Hk _ Hs).
  - intros ops.
    destruct (exec_ops_grows CONFIG world ops initial_state)
      as [_ (evs & -> & Hnd & _)].
    exact Hnd.
Qed.

Lemma processed_path_is_ignored_witness :
  let s := {| pending_imports := [("incoming/album/track.flac", 90)];
              processed_files := {[ "incoming/album/track.flac" ]};
              tick := 7%nat;
              trace := [] |} in
  process_file (PL := Sample.posix) Sample.config
    (Sample.steady 100 10 60 Sample.exit0 (Ok 204))
    "incoming/album/track.flac" s
  = (Returned tt, advance 0 [Enter_process_file "incoming/album/track.flac"] s).
Proof.
  cbn zeta.
  refine (proj1 (processed_path_is_ignored (PL := Sample.posix) Sample.config
           (Sample.steady 100 10 60 Sample.exit0 (Ok 204))
           "incoming/album/track.flac" _ _)).
  apply (bool_decide_unpack _). vm_compute. exact I.
Defined.

(** The cut is in the right place: the two halves one after the other are
    [process_file]. *)
Lemma process_file_in_two_eq {PL : PathLib}
  (CONFIG : Config) (world : Oracle) (file_path : string) (s : State) :
  process_file_in_two CONFIG world file_path s
  = process_file CONFIG world file_path s.
Proof.
  unfold process_file_in_two, process_file_launch, process_file_resume,
    process_file.
  run.
  case_bool_decide as Hin; cbn; [done |].
  destruct (o_is_file world (tick s) (path_str file_path)) as [isf|e]; cbn.
  2: { by destruct e. }
  match goal with |- context [o_run world ?t ?c ?to ?d] =>
    destruct (o_run world t c to d) as [r|e] end; cbn.
  2: { by destruct e. }
  destruct (import_succeeded r); cbn; [| done].
  match goal with |- context [trigger_jellyfin_rescan CONFIG world ?s0] =>
    destruct (trigger_jellyfin_rescan_shape CONFIG world s0)
      as (n & evs & -> & _) end.
  done.
Qed.

(** C1 as first stated fails.  A pending path whose beets run, started by
    a close notification, is still going when the poll promotes the same
    path: the test of line 117 passes in both threads, beets is launched
    twice and both runs are logged as successful imports of that path. *)
Lemma overlapping_dispatches_import_twice :
  let world := Sample.steady 100 10 60 Sample.exit0 (Ok 204) in
  let path := "incoming/album/track.flac" in
  let event := {| is_directory := false; src_path := path |} in
  let s := (closed_overlapped_by_poll (PL := Sample.posix) Sample.config
              world event Sample.one_pending).2 in
  successes (PL := Sample.posix) (trace s) = [path; path] ∧
  import_runs (trace s) = 2%nat ∧
  ¬ NoDup (successes (PL := Sample.posix) (trace s)).
Proof.
  cbn zeta.
  assert (H : successes (PL := Sample.posix)
                (trace (closed_overlapped_by_poll (PL := Sample.posix)
                          Sample.config
                          (Sample.steady 100 10 60 Sample.exit0 (Ok 204))
                          {| is_directory := false;
                             src_path := "incoming/album/track.flac" |}
                          Sample.one_pending).2)
              = ["incoming/album/track.flac"; "incoming/album/track.flac"]).
  { vm_compute. reflexivity. }
  split_and!.
  - exact H.
  - vm_compute. reflexivity.
  - rewrite H. intros Hnd. apply NoDup_cons in Hnd as [Hnin _].
    apply Hnin. by left.
Qed.


(** ** The poll loop *)

Lemma dict_del_app (k : string) (v : Z) (pre rest : list (string * Z)) :
  k ∉ pre.*1 → dict_del k (pre ++ (k, v) :: rest) = Some (pre ++ rest).
Proof.
  induction pre as [|[k' v'] pre IH]; cbn; intros Hk.
  - by rewrite bool_decide_eq_true_2.
  - apply not_elem_of_cons in Hk as [Hne Hk].
    rewrite bool_decide_eq_false_2 by congruence. by rewrite IH.
Qed.

Lemma geb_decide (a b : Z) : (a >=? b) = bool_decide (b ≤ a).
Proof.
  case_bool_decide as H.
  - by apply Z.geb_le.
  - destruct (a >=? b) eqn:E; [| done]. by apply Z.geb_le in E.
Qed.

Lemma gtb_decide (a b : Z) : (a >? b) = bool_decide (b < a).
Proof.
  case_bool_decide as H.
  - by apply Z.gtb_lt.
  - destruct (a >? b) eqn:E; [| done]. by apply Z.gtb_lt in E.
Qed.

Section Poll.

Context {PL : PathLib}.
Variable CONFIG : Config.
Variable world : Oracle.

(** During the poll the filesystem gives one answer per path, and fails
    with operating-system errors only. *)
Variable ex : string → answer bool.
Variable st : string → answer stat_result.
Hypothesis Hex : ∀ t k, o_exists world t k = ex k.
Hypothesis Hst : ∀ t k, o_stat world t k = st k.
Hypothesis Hos : ∀ k e, ex k = Raise e ∨ st k = Raise e → is_OSError e = true.

Lemma check_pending_snapshot (now : Z) (item : string * Z)
  (acc : list string) (s : State) :
  ∃ n, check_pending CONFIG world now item acc s
       = (Returned (if promotable (watch_delay CONFIG) now ex st item
                    then acc ++ [item.1] else acc),
          advance n [] s).
Proof.
  unfold check_pending, promotable. destruct item as [file_path added_time].
  cbn [fst snd]. rewrite geb_decide. run.
  destruct (bool_decide (watch_delay CONFIG ≤ now - added_time)); cbn.
  2: { exists 0%nat. rewrite app_nil_r. by destruct s. }
  rewrite Hex.
  destruct (ex (path_str file_path)) as [[|]|e] eqn:Eex; cbn.
  - rewrite Hst. destruct (st (path_str file_path)) as [f|e] eqn:Est; cbn.
    + rewrite gtb_decide. destruct (bool_decide (0 < st_size f)); cbn.
      * rewrite Hst, Est. cbn. rewrite geb_decide.
        exists 3%nat. rewrite app_nil_r.
        by destruct (bool_decide (5 ≤ now - st_mtime f)).
      * exists 2%nat. by rewrite app_nil_r.
    + rewrite (Hos (path_str file_path) e) by auto. cbn.
      exists 2%nat. by rewrite app_nil_r.
  - exists 1%nat. by rewrite app_nil_r.
  - rewrite (Hos (path_str file_path) e) by auto. cbn.
    exists 1%nat. by rewrite app_nil_r.
Qed.

Lemma scan_pending_snapshot (now : Z) (items : list (string * Z))
  (acc : list string) (s : State) :
  ∃ n, scan_pending CONFIG world now items acc s
       = (Returned
            (acc ++ (filter (promotable (watch_delay CONFIG) now ex st) items).*1),
          advance n [] s).
Proof.
  revert acc s. induction items as [|item items IH]; intros acc s.
  - exists 0%nat. cbn. unfold ret, advance. rewrite !app_nil_r. by destruct s.
  - cbn [scan_pending]. unfold bind.
    destruct (check_pending_snapshot now item acc s) as [n ->].
    destruct (IH (if promotable (watch_delay CONFIG) now ex st item
                  then acc ++ [item.1] else acc) (advance n [] s)) as [m ->].
    exists (m + n)%nat. f_equal.
    + f_equal. destruct (promotable (watch_delay CONFIG) now ex st item) eqn:E.
      * rewrite filter_cons_True by (by rewrite E).
        by rewrite fmap_cons, <- app_assoc.
      * rewrite filter_cons_False; [done |]. rewrite E. intros [].
    + unfold advance. cbn. by rewrite !app_nil_r, Nat.add_assoc.
Qed.

End Poll.

Section Drain.

Context {PL : PathLib}.
Variable CONFIG : Config.
Variable world : Oracle.

(** The second loop: the selected entries leave the dictionary one by one,
    each followed by its dispatch; the others keep their place. *)
Lemma import_ready_selected (P : string * Z → bool)
  (suffix pre : list (string * Z)) (s : State) :
  pending_imports s = pre ++ suffix →
  NoDup (pre ++ suffix).*1 →
  ∃ s',
    import_ready CONFIG world (filter P suffix).*1 s = (Returned tt, s') ∧
    pending_imports s' = pre ++ filter (λ entry, ¬ P entry) suffix ∧
    dispatched (trace s') = dispatched (trace s) ++ (filter P suffix).*1.
Proof.
  revert pre s. induction suffix as [|[k v] suffix IH]; intros pre s Hp Hnd.
  - exists s. rewrite app_nil_r in Hp. rewrite filter_nil.
    cbn. by rewrite !app_nil_r.
  - destruct (P (k, v)) eqn:E.
    + rewrite filter_cons_True by (by rewrite E).
      rewrite filter_cons_False by (rewrite E; cbn; tauto).
      rewrite fmap_cons. cbn [import_ready fst]. run.
      rewrite Hp, dict_del_app.
      2: { rewrite fmap_app, fmap_cons in Hnd. apply NoDup_app in Hnd as (_ & Hd & _).
           intros Hin. apply (Hd k Hin). by left. }
      cbn.
      match goal with |- context [process_file CONFIG world k ?st] =>
        destruct (process_file_shape CONFIG world k st)
          as (n & evs & P' & Hpf & Hd & _); rewrite Hpf; clear Hpf end.
      cbn.
      match goal with |- context [import_ready CONFIG world _ ?st] =>
        destruct (IH pre st) as (s' & -> & Hp' & Hd') end.
      { reflexivity. }
      { rewrite fmap_app, fmap_cons in Hnd. rewrite fmap_app.
        apply NoDup_app in Hnd as (H1 & H2 & H3).
        apply NoDup_cons in H3 as [_ H3].
        apply NoDup_app. split_and!; [done | | done].
        intros x Hx Hx'. apply (H2 x Hx). by right. }
      exists s'. split_and!; [done | done |].
      rewrite Hd'. cbn [trace]. rewrite dispatched_app.
      change (dispatched (Enter_process_file k :: evs)) with (k :: dispatched evs).
      by rewrite Hd, <- app_assoc.
    + rewrite filter_cons_False by (rewrite E; intros []).
      rewrite filter_cons_True by (rewrite E; intros []).
      destruct (IH (pre ++ [(k, v)]) s) as (s' & -> & Hp' & Hd').
      { by rewrite <- app_assoc. }
      { by rewrite <- app_assoc. }
      exists s'. split_and!; [done | | done].
      by rewrite Hp', <- app_assoc.
Qed.

End Drain.

(** What one call of [process_pending] does while the filesystem holds
    still. *)
Lemma process_pending_snapshot {PL : PathLib}
  (CONFIG : Config) (world : Oracle)
  (ex : string → answer bool) (st : string → answer stat_result) (s : State) :
  (∀ t k, o_exists world t k = ex k) →
  (∀ t k, o_stat world t k = st k) →
  (∀ k e, ex k = Raise e ∨ st k = Raise e → is_OSError e = true) →
  NoDup (pending_imports s).*1 →
  let ready := promotable (watch_delay CONFIG) (o_time world (tick s)) ex st in
  let r := process_pending CONFIG world s in
  r.1 = Returned tt ∧
  pending_imports r.2 = filter (λ entry, ¬ ready entry) (pending_imports s) ∧
  dispatched (trace r.2)
  = dispatched (trace s) ++ (filter ready (pending_imports s)).*1 ∧
  processed_files s ⊆ processed_files r.2.
Proof.
  intros Hex Hst Hos Hnd ready r.
  assert (Hg := process_pending_grows CONFIG world s).
  subst r. unfold process_pending in *. run.
  match goal with |- context [scan_pending CONFIG world ?now ?items ?acc ?st0] =>
    destruct (scan_pending_snapshot CONFIG world ex st Hex Hst Hos now items acc st0)
      as [n Hscan]; rewrite Hscan in *; clear Hscan end.
  cbn [app] in *.
  match goal with |- context [import_ready CONFIG world _ ?st0] =>
    destruct (import_ready_selected CONFIG world ready (pending_imports s) [] st0)
      as (s' & Hir & Hp & Hd) end.
  { reflexivity. }
  { exact Hnd. }
  fold ready in Hg |- *. rewrite Hir in *. cbn [fst snd] in *.
  split_and!; [done | done | | apply Hg].
  rewrite Hd. unfold advance. cbn [trace]. by rewrite !app_nil_r.
Qed.

(** C4.  While the filesystem holds still during the poll, with
    [now] the clock read at its start, [process_pending] selects exactly
    the pending entries that are [promotable]: quiet period elapsed since
    first seen, file present, size above zero, last modified at least 5
    ago.  Each one is deleted from [pending_imports] and then handed to
    [process_file], in dictionary order; all other entries, including those
    whose file cannot be examined, stay in [pending_imports] with their
    timestamp and in their order.  The call returns normally. *)
Theorem process_pending_promotes_ready {PL : PathLib}
  (CONFIG : Config) (world : Oracle)
  (ex : string → answer bool) (st : string → answer stat_result) (s : State) :
  (∀ t k, o_exists world t k = ex k) →
  (∀ t k, o_stat world t k = st k) →
  (∀ k e, ex k = Raise e ∨ st k = Raise e → is_OSError e = true) →
  NoDup (pending_imports s).*1 →
  let ready := promotable (watch_delay CONFIG) (o_time world (tick s)) ex st in
  let r := process_pending CONFIG world s in
  r.1 = Returned tt ∧
  pending_imports r.2 = filter (λ entry, ¬ ready entry) (pending_imports s) ∧
  dispatched (trace r.2)
  = dispatched (trace s) ++ (filter ready (pending_imports s)).*1.
Proof.
  intros Hex Hst Hos Hnd ready r.
  destruct (process_pending_snapshot CONFIG world ex st s Hex Hst Hos Hnd)
    as (H1 & H2 & H3 & _).
  by split_and!.
Qed.

Lemma process_pending_promotes_ready_witness :
  let r := process_pending (PL := Sample.posix) Sample.config
             (Sample.steady 100 10 60 Sample.exit0 (Ok 204))
             Sample.one_pending in
  r.1 = Returned tt ∧
  pending_imports r.2 = [] ∧
  dispatched (trace r.2) = ["incoming/album/track.flac"].
Proof.
  cbn zeta.
  refine (process_pending_promotes_ready (PL := Sample.posix) Sample.config
            (Sample.steady 100 10 60 Sample.exit0 (Ok 204))
            (fun _ => Ok true)
            (fun _ => Ok {| st_size := 10; st_mtime := 60 |})
            Sample.one_pending _ _ _ _).
  - reflexivity.
  - reflexivity.
  - intros k e [H | H]; discriminate.
  - cbn. apply NoDup_singleton.
Defined.

(** C10.  A close notification for a file (not a directory) whose
    [src_path] is a key of [pending_imports] sleeps two seconds and then is
    [process_file] on that path: neither the clock nor the filesystem is
    consulted first, and the entry is not deleted.  The entry is therefore
    still pending afterwards, and a later poll that finds it promotable
    deletes it and dispatches the same path a second time. *)
Theorem on_closed_dispatches_and_keeps_pending {PL : PathLib}
  (CONFIG : Config) (world : Oracle) (event : FileSystemEvent) (s : State) :
  is_directory event = false →
  src_path event ∈ (pending_imports s).*1 →
  let r := on_closed CONFIG world event s in
  r = process_file CONFIG world (src_path event) (advance 0 [Sleep 2] s) ∧
  pending_imports r.2 = pending_imports s ∧
  dispatched (trace r.2) = dispatched (trace s) ++ [src_path event] ∧
  (∀ ex st added,
     (∀ t k, o_exists world t k = ex k) →
     (∀ t k, o_stat world t k = st k) →
     (∀ k e, ex k = Raise e ∨ st k = Raise e → is_OSError e = true) →
     NoDup (pending_imports s).*1 →
     (src_path event, added) ∈ pending_imports s →
     promotable (watch_delay CONFIG) (o_time world (tick r.2)) ex st
       (src_path event, added) = true →
     let r' := process_pending CONFIG world r.2 in
     ((src_path event, added) ∉ pending_imports r'.2) ∧
     ∃ l1 l2,
       dispatched (trace r'.2)
       = dispatched (trace s) ++ [src_path event] ++ l1 ++ [src_path event] ++ l2).
Proof.
  intros Hdir Hin r.
  assert (Hr : r = process_file CONFIG world (src_path event)
                     (advance 0 [Sleep 2] s)).
  { subst r. unfold on_closed. run. rewrite Hdir.
    unfold dict_mem. by rewrite bool_decide_eq_true_2. }
  destruct (process_file_shape CONFIG world (src_path event)
              (advance 0 [Sleep 2] s)) as (n & evs & P' & Hpf & Hd & _).
  rewrite Hpf in Hr.
  assert (Hpend : pending_imports r.2 = pending_imports s) by by rewrite Hr.
  assert (Hdisp : dispatched (trace r.2)
                  = dispatched (trace s) ++ [src_path event]).
  { rewrite Hr. cbn [snd trace advance]. rewrite !dispatched_app.
    change (dispatched (Enter_process_file (src_path event) :: evs))
      with (src_path event :: dispatched evs).
    rewrite Hd. cbn. by rewrite app_nil_r. }
  split_and!; [by rewrite Hpf | exact Hpend | exact Hdisp |].
  intros ex st added Hex Hst Hos Hnd Hentry Hready r'.
  destruct (process_pending_snapshot CONFIG world ex st r.2 Hex Hst Hos)
    as (_ & H2 & H3 & _).
  { by rewrite Hpend. }
  fold r' in H2, H3. rewrite Hpend in H2, H3. split.
  - rewrite H2. intros [Hn _]%list_elem_of_filter. apply Hn. by rewrite Hready.
  - assert (Hsel : (src_path event, added)
                   ∈ filter (promotable (watch_delay CONFIG)
                               (o_time world (tick r.2)) ex st)
                       (pending_imports s)).
    { apply list_elem_of_filter. split; [by rewrite Hready | done]. }
    apply list_elem_of_split in Hsel as (l1 & l2 & Hsel).
    exists l1.*1, l2.*1. rewrite H3, Hdisp, Hsel, fmap_app, fmap_cons.
    cbn. by rewrite <- !app_assoc.
Qed.

Lemma on_closed_dispatches_and_keeps_pending_witness :
  let r := on_closed (PL := Sample.posix) Sample.config
             (Sample.steady 100 10 60 Sample.exit1 (Ok 204))
             {| is_directory := false; src_path := "incoming/album/track.flac" |}
             Sample.one_pending in
  pending_imports r.2 = [("incoming/album/track.flac", 60)] ∧
  dispatched (trace r.2) = ["incoming/album/track.flac"].
Proof.
  cbn zeta.
  pose proof (on_closed_dispatches_and_keeps_pending (PL := Sample.posix)
                Sample.config (Sample.steady 100 10 60 Sample.exit1 (Ok 204))
                {| is_directory := false; src_path := "incoming/album/track.flac" |}
                Sample.one_pending eq_refl) as H.
  destruct H as (_ & H2 & H3 & _).
  - cbn. apply list_elem_of_singleton. reflexivity.
  - split; [exact H2 | exact H3].
Defined.

(** ** Filesystem errors in [handle_file] *)

(** The [stat] of line 98 is inside the [try]: an [OSError] there is
    logged at debug level and swallowed, with both containers untouched. *)
Lemma handle_file_guarded_stat_error {PL : PathLib}
  (CONFIG : Config) (world : Oracle) (file_path : string) (s : State)
  (st0 : stat_result) (e : exn) :
  str_lower (path_suffix file_path) ∈ file_extensions CONFIG →
  o_exists world (tick s) (path_str file_path) = Ok true →
  o_stat world (1 + tick s) (path_str file_path) = Ok st0 →
  st_size st0 ≠ 0 →
  path_str file_path ∉ processed_files s →
  o_stat world (2 + tick s) (path_str file_path) = Raise e →
  is_OSError e = true →
  handle_file CONFIG world file_path s
  = (Returned tt, advance 3 [Log DEBUG (MsgLocked file_path e)] s).
Proof.
  intros Hext Hex Hst0 Hsize Hproc Hst He. unfold handle_file. run.
  rewrite bool_decide_eq_true_2 by done. cbn.
  rewrite Hex. cbn. rewrite Hst0. cbn.
  rewrite (proj2 (Z.eqb_neq _ _) Hsize).
  rewrite bool_decide_eq_false_2 by done. cbn. rewrite Hst. cbn.
  by rewrite He.
Qed.

(** The [stat] of line 89 is not: whatever it raises leaves [handle_file]. *)
Lemma handle_file_unguarded_stat_error {PL : PathLib}
  (CONFIG : Config) (world : Oracle) (file_path : string) (s : State)
  (e : exn) :
  str_lower (path_suffix file_path) ∈ file_extensions CONFIG →
  o_exists world (tick s) (path_str file_path) = Ok true →
  o_stat world (1 + tick s) (path_str file_path) = Raise e →
  handle_file CONFIG world file_path s = (Raised e, advance 2 [] s).
Proof.
  intros Hext Hex Hst0. unfold handle_file. run.
  rewrite bool_decide_eq_true_2 by done. cbn.
  rewrite Hex. cbn. rewrite Hst0. cbn. by rewrite app_nil_r.
Qed.

(** C7.  A file with a media suffix that exists but whose [stat] raises
    [PermissionError]: the error is raised by the size check of line 89,
    before the [try] of line 97, and leaves [handle_file] as an exception
    instead of being swallowed.  Both containers are untouched. *)
Theorem handle_file_stat_error_escapes :
  handle_file (PL := Sample.posix) Sample.config Sample.locked
    "incoming/album/track.flac" initial_state
  = (Raised PermissionError,
     {| pending_imports := []; processed_files := ∅; tick := 2%nat;
        trace := [] |}).
Proof.
  rewrite (handle_file_unguarded_stat_error (PL := Sample.posix) Sample.config
             Sample.locked "incoming/album/track.flac" initial_state
             PermissionError).
  - reflexivity.
  - apply (bool_decide_unpack _). vm_compute. exact I.
  - reflexivity.
  - reflexivity.
Qed.

(** ** The pending dictionary keeps its keys distinct *)

Lemma dict_del_keys (k : string) (d d' : list (string * Z)) :
  dict_del k d = Some d' → d'.*1 ⊆ d.*1.
Proof.
  revert d'. induction d as [|[k' v'] d IH]; cbn; intros d' Hd; [done |].
  case_bool_decide as Hk.
  - injection Hd as <-. intros x Hx. by right.
  - destruct (dict_del k d) as [d0|]; cbn in Hd; [| done].
    injection Hd as <-. rewrite fmap_cons. cbn.
    intros x [-> | Hx]%elem_of_cons; [by left | right; by apply (IH d0)].
Qed.

Lemma dict_del_NoDup (k : string) (d d' : list (string * Z)) :
  NoDup d.*1 → dict_del k d = Some d' → NoDup d'.*1.
Proof.
  revert d'. induction d as [|[k' v'] d IH]; cbn; intros d' Hnd Hd; [done |].
  apply NoDup_cons in Hnd as [Hk' Hnd].
  case_bool_decide as Hk.
  - by injection Hd as <-.
  - destruct (dict_del k d) as [d0|] eqn:E; cbn in Hd; [| done].
    injection Hd as <-. rewrite fmap_cons. cbn. apply NoDup_cons. split.
    + intros Hin. apply Hk'. by apply (dict_del_keys k d d0).
    + by apply IH.
Qed.

Section Keys.

Context {PL : PathLib}.
Variable CONFIG : Config.
Variable world : Oracle.

Lemma handle_file_keys (file_path : string) (s : State) :
  NoDup (pending_imports s).*1 →
  NoDup (pending_imports (handle_file CONFIG world file_path s).2).*1.
Proof.
  intros Hnd. unfold handle_file. run.
  cases; try done; try (by apply dict_set_NoDup);
    match goal with
    | H : process_file ?C ?w ?p ?st = _ |- _ =>
        destruct (process_file_shape C w p st) as (n & evs & P' & Hpf & _);
        rewrite Hpf in H; simplify_eq; done
    end.
Qed.

Lemma import_ready_keys (to_process : list string) (s : State) :
  NoDup (pending_imports s).*1 →
  NoDup (pending_imports (import_ready CONFIG world to_process s).2).*1.
Proof.
  revert s. induction to_process as [|p rest IH]; intros s Hnd; cbn; [done |].
  run. destruct (dict_del p (pending_imports s)) as [d|] eqn:E; cbn; [| done].
  match goal with |- context [process_file CONFIG world p ?st] =>
    destruct (process_file_shape CONFIG world p st)
      as (n & evs & P' & -> & _) end.
  apply IH. cbn. by apply (dict_del_NoDup p (pending_imports s)).
Qed.

Lemma process_pending_keys (s : State) :
  NoDup (pending_imports s).*1 →
  NoDup (pending_imports (process_pending CONFIG world s).2).*1.
Proof.
  intros Hnd. unfold process_pending. run.
  match goal with |- context [scan_pending CONFIG world ?now ?items ?acc ?st] =>
    destruct (scan_pending_frame CONFIG world now items acc st) as [n Hn];
    destruct (scan_pending CONFIG world now items acc st) as [[l|e] s1] end;
    cbn in *; subst s1; [| done].
  by apply import_ready_keys.
Qed.

(** In every state the program reaches, [pending_imports] is a dictionary:
    no key occurs twice. *)
Lemma exec_ops_keys (ops : list Op) (s : State) :
  NoDup (pending_imports s).*1 →
  NoDup (pending_imports (exec_ops CONFIG world ops s)).*1.
Proof.
  revert s. induction ops as [|op ops IH]; intros s Hnd; cbn; [done |].
  apply IH. destruct op as [ev|ev|ev|]; cbn.
  - unfold on_created. destruct (is_directory ev); [done |].
    by apply handle_file_keys.
  - unfold on_modified. destruct (is_directory ev); [done |].
    by apply handle_file_keys.
  - unfold on_closed. run. destruct (is_directory ev); [done |].
    destruct (dict_mem _ _); cbn; [| done].
    match goal with |- context [process_file CONFIG world ?p ?st] =>
      destruct (process_file_shape CONFIG world p st)
        as (n & evs & P' & -> & _) end.
    done.
  - unfold poll_once. run. by apply process_pending_keys.
Qed.

End Keys.

(** * Further properties of the program *)

(** ** The poll cannot fail on its own *)

Section PollSafety.

Context {PL : PathLib}.
Variable CONFIG : Config.
Variable world : Oracle.

(** The filesystem fails with operating-system errors only. *)
Hypothesis Hos :
  ∀ t k e, o_exists world t k = Raise e ∨ o_stat world t k = Raise e →
           is_OSError e = true.

Lemma check_pending_returns (now : Z) (item : string * Z) (acc : list string)
  (s : State) :
  ∃ n acc',
    check_pending CONFIG world now item acc s = (Returned acc', advance n [] s) ∧
    (acc' = acc ∨ acc' = acc ++ [item.1]).
Proof.
  unfold check_pending. destruct item as [file_path added_time]. run.
  cases;
    try match goal with
        | H : o_exists world _ _ = Raise ?e, H' : is_OSError ?e = false |- _ =>
            rewrite (Hos _ _ _ (or_introl H)) in H'; discriminate
        | H : o_stat world _ _ = Raise ?e, H' : is_OSError ?e = false |- _ =>
            rewrite (Hos _ _ _ (or_intror H)) in H'; discriminate
        end;
    first [ exists 0%nat; eexists; split;
              [by rewrite app_nil_r; destruct s | auto]
          | exists 1%nat; eexists; split; [by rewrite app_nil_r | auto]
          | exists 2%nat; eexists; split; [by rewrite app_nil_r | auto]
          | exists 3%nat; eexists; split; [by rewrite app_nil_r | auto] ].
Qed.

(** Whatever the filesystem answers, the first loop selects keys of the
    dictionary, in dictionary order. *)
Lemma scan_pending_returns (now : Z) (items : list (string * Z))
  (acc : list string) (s : State) :
  ∃ n l,
    scan_pending CONFIG world now items acc s
    = (Returned (acc ++ l), advance n [] s) ∧
    l `sublist_of` items.*1.
Proof.
  revert acc s. induction items as [|item items IH]; intros acc s.
  - exists 0%nat, []. cbn. unfold ret, advance. rewrite !app_nil_r.
    split; [by destruct s | done].
  - cbn [scan_pending]. unfold bind.
    destruct (check_pending_returns now item acc s) as (n & acc' & -> & Hacc).
    destruct (IH acc' (advance n [] s)) as (m & l & -> & Hl).
    assert (Hst : advance m [] (advance n [] s) = advance (m + n) [] s).
    { unfold advance. cbn. by rewrite !app_nil_r, Nat.add_assoc. }
    rewrite Hst. rewrite fmap_cons. destruct Hacc as [-> | ->].
    + exists (m + n)%nat, l. split; [done | by apply sublist_cons].
    + exists (m + n)%nat, (item.1 :: l). rewrite <- app_assoc.
      split; [done | by apply sublist_skip].
Qed.

(** The second loop never meets a missing key when it is given keys of
    the dictionary in dictionary order. *)
Lemma import_ready_returns (suffix pre : list (string * Z))
  (l : list string) (s : State) :
  l `sublist_of` suffix.*1 →
  pending_imports s = pre ++ suffix →
  NoDup (pre ++ suffix).*1 →
  ∃ s', import_ready CONFIG world l s = (Returned tt, s').
Proof.
  revert pre l s. induction suffix as [|[k v] suffix IH]; intros pre l s Hl Hp Hnd.
  - apply sublist_nil_r in Hl as ->. by exists s.
  - rewrite fmap_cons in Hl. apply sublist_cons_r in Hl as [Hl | (l' & -> & Hl)].
    + apply (IH (pre ++ [(k, v)])); [done | |]; by rewrite <- app_assoc.
    + cbn [import_ready]. run.
      rewrite Hp, dict_del_app.
      2: { rewrite fmap_app, fmap_cons in Hnd.
           apply NoDup_app in Hnd as (_ & Hd & _).
           intros Hin. apply (Hd k Hin). by left. }
      cbn.
      match goal with |- context [process_file CONFIG world k ?st] =>
        destruct (process_file_shape CONFIG world k st)
          as (n & evs & P' & Hpf & _); rewrite Hpf; clear Hpf end.
      cbn. apply (IH pre); [done | reflexivity |].
      rewrite fmap_app, fmap_cons in Hnd. rewrite fmap_app.
      apply NoDup_app in Hnd as (H1 & H2 & H3).
      apply NoDup_cons in H3 as [_ H3].
      apply NoDup_app. split_and!; [done | | done].
      intros x Hx Hx'. apply (H2 x Hx). by right.
Qed.

Lemma process_pending_returns (s : State) :
  NoDup (pending_imports s).*1 →
  (process_pending CONFIG world s).1 = Returned tt.
Proof.
  intros Hnd. unfold process_pending. run.
  match goal with |- context [scan_pending CONFIG world ?now ?items ?acc ?st0] =>
    destruct (scan_pending_returns now items acc st0)
      as (n & l & -> & Hl) end.
  cbn [app].
  match goal with |- context [import_ready CONFIG world l ?st0] =>
    destruct (import_ready_returns (pending_imports s) [] l st0)
      as (s' & ->) end; done.
Qed.

End PollSafety.

(** X1.  If the filesystem fails with operating-system errors only, a turn
    of the poll loop returns normally in every state reached by a serial
    history of callbacks and polls: the [del] of line 178 never meets a
    missing key and every error of the re-check is absorbed, so the loop of
    [watch_directory] is never left through an exception of
    [process_pending]. *)
Theorem poll_never_raises {PL : PathLib}
  (CONFIG : Config) (world : Oracle) (ops : list Op) :
  (∀ t k e, o_exists world t k = Raise e ∨ o_stat world t k = Raise e →
            is_OSError e = true) →
  (exec_op CONFIG world Poll (exec_ops CONFIG world ops initial_state)).1
  = Returned tt.
Proof.
  intros Hos. cbn. unfold poll_once. run.
  apply (process_pending_returns CONFIG world Hos).
  cbn. apply (exec_ops_keys CONFIG world ops initial_state). constructor.
Qed.

Lemma poll_never_raises_witness :
  let history :=
    [Created {| is_directory := false; src_path := Sample.track1 |};
     Created {| is_directory := false; src_path := Sample.track2 |}] in
  let s := exec_ops (PL := Sample.posix) Sample.config Sample.flaky history
             initial_state in
  let r := exec_op (PL := Sample.posix) Sample.config Sample.flaky Poll s in
  pending_imports s = [(Sample.track1, 100); (Sample.track2, 100)] ∧
  o_stat Sample.flaky 15 Sample.track2 = Raise PermissionError ∧
  r.1 = Returned tt ∧
  pending_imports r.2 = [(Sample.track2, 100)] ∧
  dispatched (trace r.2) = [Sample.track1].
Proof.
  cbn zeta. split_and!.
  - vm_compute. reflexivity.
  - reflexivity.
  - apply (poll_never_raises (PL := Sample.posix)).
    intros t k e [H | H]; [discriminate |].
    cbn in H. destruct (_ && _); [by injection H as <- | discriminate].
  - vm_compute. reflexivity.
  - vm_compute. reflexivity.
Defined.

(** ** What a notification can and cannot do *)

Section Callbacks.

Context {PL : PathLib}.
Variable CONFIG : Config.
Variable world : Oracle.

(** [handle_file] raises only what [exists()] or [stat()] raised, and has
    changed nothing by then. *)
Lemma handle_file_raise_shape (file_path : string) (s : State) (e : exn) :
  (handle_file CONFIG world file_path s).1 = Raised e →
  (∃ n, (handle_file CONFIG world file_path s).2 = advance n [] s) ∧
  ∃ t, o_exists world t (path_str file_path) = Raise e ∨
       o_stat world t (path_str file_path) = Raise e.
Proof.
  unfold handle_file. run.
  cases; intros He; simplify_eq;
    try match goal with
        | H : process_file ?C ?w ?p ?st = (Raised _, _) |- _ =>
            destruct (process_file_shape C w p st) as (n & evs & P' & Hpf & _);
            rewrite Hpf in H; discriminate
        end;
    (split; [| eauto]);
    first [ by exists 1%nat; rewrite app_nil_r
          | by exists 2%nat; rewrite app_nil_r
          | by exists 3%nat; rewrite app_nil_r ].
Qed.

(** The launches of beets during one [process_file]. *)
Lemma process_file_run_shape (file_path : string) (s : State) :
  ∃ evs,
    trace (process_file CONFIG world file_path s).2
    = trace s ++ Enter_process_file file_path :: evs ∧
    List.filter is_run evs =
    if bool_decide (path_str file_path ∈ processed_files s) then []
    else match o_is_file world (tick s) (path_str file_path) with
         | Ok is_file =>
             [SubprocessRun
                (beets_cmd CONFIG
                   (if is_file then path_parent file_path
                    else path_str file_path))
                600 (script_dir CONFIG)]
         | Raise _ => []
         end.
Proof.
  unfold process_file. run.
  case_bool_decide as Hin; cbn.
  { by exists []. }
  destruct (o_is_file world (tick s) (path_str file_path)) as [isf|e]; cbn.
  2: { destruct e; cbn; flat; eexists; (split; [reflexivity | done]). }
  match goal with |- context [o_run world ?t ?c ?to ?d] =>
    destruct (o_run world t c to d) as [r|e] end; cbn.
  2: { destruct e; cbn; flat; eexists; (split; [reflexivity | done]). }
  destruct (import_succeeded r); cbn.
  - match goal with |- context [trigger_jellyfin_rescan CONFIG world ?s0] =>
      destruct (trigger_jellyfin_rescan_shape CONFIG world s0)
        as (n & evs & -> & _ & _ & _ & Hi & _) end.
    unfold advance. cbn. flat. eexists. split; [reflexivity |].
    cbn. unfold import_runs in Hi.
    by rewrite (nil_length_inv _ Hi).
  - flat. eexists. split; [reflexivity | done].
Qed.

End Callbacks.

(** X2.  A created, modified or closed callback that ends with an exception
    has changed nothing: both containers and the effect trace are as
    before.  The exception is one that [exists()] or [stat()] raised on the
    path of the event, and [on_closed] never raises at all. *)
Theorem callback_error_changes_nothing {PL : PathLib}
  (CONFIG : Config) (world : Oracle) (op : Op) (s : State) (e : exn) :
  op ≠ Poll →
  (exec_op CONFIG world op s).1 = Raised e →
  let s' := (exec_op CONFIG world op s).2 in
  pending_imports s' = pending_imports s ∧
  processed_files s' = processed_files s ∧
  trace s' = trace s ∧
  (∃ event,
     (op = Created event ∨ op = Modified event) ∧
     ∃ t, o_exists world t (path_str (src_path event)) = Raise e ∨
          o_stat world t (path_str (src_path event)) = Raise e).
Proof.
  intros Hop He. destruct op as [ev|ev|ev|]; cbn in *; [| | | done].
  - unfold on_created in *. destruct (is_directory ev); [done |].
    destruct (handle_file_raise_shape CONFIG world _ _ _ He) as ([n ->] & Hfs).
    cbn. rewrite app_nil_r. split_and!; [done | done | done |].
    exists ev. eauto.
  - unfold on_modified in *. destruct (is_directory ev); [done |].
    destruct (handle_file_raise_shape CONFIG world _ _ _ He) as ([n ->] & Hfs).
    cbn. rewrite app_nil_r. split_and!; [done | done | done |].
    exists ev. eauto.
  - exfalso. unfold on_closed in He. run. destruct (is_directory ev); [done |].
    destruct (dict_mem _ _); cbn in He; [| done].
    match type of He with context [process_file CONFIG world ?p ?st] =>
      destruct (process_file_shape CONFIG world p st)
        as (n & evs & P' & Hpf & _); rewrite Hpf in He end.
    done.
Qed.

Lemma callback_error_changes_nothing_witness :
  let s' := (exec_op (PL := Sample.posix) Sample.config Sample.locked
               (Created {| is_directory := false;
                           src_path := "incoming/album/track.flac" |})
               Sample.one_pending).2 in
  pending_imports s' = pending_imports Sample.one_pending ∧
  trace s' = trace Sample.one_pending.
Proof.
  cbn zeta.
  pose proof (callback_error_changes_nothing (PL := Sample.posix)
                Sample.config Sample.locked
                (Created {| is_directory := false;
                            src_path := "incoming/album/track.flac" |})
                Sample.one_pending PermissionError) as H.
  destruct H as (H1 & _ & H3 & _).
  - discriminate.
  - vm_compute. reflexivity.
  - split; [exact H1 | exact H3].
Defined.

(** X3.  A path that does not exist, or whose size is zero, is dropped by
    [handle_file]: it returns normally, creates no pending entry, does not
    dispatch and logs nothing. *)
Theorem handle_file_ignores_missing_or_empty {PL : PathLib}
  (CONFIG : Config) (world : Oracle) (file_path : string) (s : State) :
  o_exists world (tick s) (path_str file_path) = Ok false ∨
  (o_exists world (tick s) (path_str file_path) = Ok true ∧
   ∃ st0, o_stat world (1 + tick s) (path_str file_path) = Ok st0 ∧
          st_size st0 = 0) →
  let r := handle_file CONFIG world file_path s in
  r.1 = Returned tt ∧
  pending_imports r.2 = pending_imports s ∧
  processed_files r.2 = processed_files s ∧
  trace r.2 = trace s.
Proof.
  intros Hfs. unfold handle_file. run.
  destruct (negb _); cbn; [done |].
  destruct Hfs as [Hex | (Hex & st0 & Hst & Hsize)]; rewrite Hex; cbn;
    [done |].
  rewrite Hst. cbn. by rewrite Hsize.
Qed.

Lemma handle_file_ignores_missing_or_empty_witness :
  let r := handle_file (PL := Sample.posix) Sample.config
             (Sample.steady 100 0 60 Sample.exit0 (Ok 204))
             "incoming/album/track.flac" Sample.one_pending in
  r.1 = Returned tt ∧
  pending_imports r.2 = pending_imports Sample.one_pending ∧
  processed_files r.2 = processed_files Sample.one_pending ∧
  trace r.2 = trace Sample.one_pending.
Proof.
  apply (handle_file_ignores_missing_or_empty (PL := Sample.posix)).
  right. split; [reflexivity |].
  exists {| st_size := 0; st_mtime := 60 |}. split; reflexivity.
Defined.

(** X4.  During one [process_file] beets is launched at most once: exactly
    when the path is not yet processed and [is_file()] answers.  The launch
    is [beet -c <config> import -q --noautotag --move <dir>] with timeout
    600 in the script directory, where [<dir>] is the parent directory of a
    regular file and the path itself otherwise. *)
Theorem process_file_launches_beets_once {PL : PathLib}
  (CONFIG : Config) (world : Oracle) (file_path : string) (s : State) :
  let new :=
    drop (length (trace s)) (trace (process_file CONFIG world file_path s).2) in
  List.filter is_run new =
  if bool_decide (path_str file_path ∈ processed_files s) then []
  else match o_is_file world (tick s) (path_str file_path) with
       | Ok is_file =>
           [SubprocessRun
              [beets_binary CONFIG; "-c"; beets_config CONFIG; "import"; "-q";
               "--noautotag"; "--move";
               if is_file then path_parent file_path else path_str file_path]
              600 (script_dir CONFIG)]
       | Raise _ => []
       end.
Proof.
  cbn zeta.
  destruct (process_file_run_shape CONFIG world file_path s) as (evs & -> & Hr).
  rewrite drop_app_length. cbn. exact Hr.
Qed.

(** X5.  A created, modified or closed notification dispatches at most one
    path, the path of its event, and launches beets at most once. *)
Theorem callback_dispatches_own_path_at_most_once {PL : PathLib}
  (CONFIG : Config) (world : Oracle) (event : FileSystemEvent) (op : Op)
  (s : State) :
  op ∈ [Created event; Modified event; Closed event] →
  let s' := (exec_op CONFIG world op s).2 in
  (dispatched (trace s') = dispatched (trace s) ∨
   dispatched (trace s') = dispatched (trace s) ++ [src_path event]) ∧
  (import_runs (trace s') ≤ import_runs (trace s) + 1)%nat.
Proof.
  intros Hop.
  assert (Hpf : ∀ st,
    dispatched (trace (process_file CONFIG world (src_path event) st).2)
    = dispatched (trace st) ++ [src_path event] ∧
    (import_runs (trace (process_file CONFIG world (src_path event) st).2)
     ≤ import_runs (trace st) + 1)%nat).
  { intros st.
    destruct (process_file_shape CONFIG world (src_path event) st)
      as (n & evs & P' & Hsh & Hd & _).
    destruct (process_file_run_shape CONFIG world (src_path event) st)
      as (evs' & Ht & Hr).
    rewrite Hsh in Ht. cbn in Ht. apply app_inv_head in Ht.
    injection Ht as <-. rewrite Hsh. cbn [snd trace].
    rewrite dispatched_app, import_runs_app.
    change (dispatched (Enter_process_file (src_path event) :: evs))
      with (src_path event :: dispatched evs).
    change (import_runs (Enter_process_file (src_path event) :: evs))
      with (length (List.filter is_run evs)).
    rewrite Hd, Hr. split; [done |].
    case_bool_decide; cbn; [lia |].
    destruct (o_is_file _ _ _); cbn; lia. }
  assert (Hhf :
    let s' := (handle_file CONFIG world (src_path event) s).2 in
    (dispatched (trace s') = dispatched (trace s) ∨
     dispatched (trace s') = dispatched (trace s) ++ [src_path event]) ∧
    (import_runs (trace s') ≤ import_runs (trace s) + 1)%nat).
  { unfold handle_file. run.
    cases; cbn [fst snd trace] in *;
      try match goal with
          | H : process_file _ _ _ ?st = (_, ?s0) |- _ =>
              destruct (Hpf st) as [Hd Hi]; rewrite H in Hd, Hi;
              cbn [fst snd trace] in Hd, Hi
          end;
      rewrite ?dispatched_app, ?import_runs_app; try rewrite Hd;
      unfold import_runs in *; cbn;
      rewrite ?app_nil_r, ?Nat.add_0_r;
      (split; [first [by left | by right] | lia]). }
  apply elem_of_cons in Hop as [-> | Hop];
    [| apply elem_of_cons in Hop as [-> | Hop];
       [| apply list_elem_of_singleton in Hop as ->]]; cbn.
  - unfold on_created. destruct (is_directory event); [| exact Hhf].
    cbn. split; [by left | lia].
  - unfold on_modified. destruct (is_directory event); [| exact Hhf].
    cbn. split; [by left | lia].
  - unfold on_closed. run. destruct (is_directory event); cbn.
    { split; [by left | lia]. }
    destruct (dict_mem _ _); cbn; [| split; [by left | lia]].
    match goal with |- context [process_file CONFIG world _ ?st] =>
      destruct (Hpf st) as [Hd Hi] end.
    cbn [trace] in Hd, Hi.
    rewrite dispatched_app in Hd. rewrite import_runs_app in Hi.
    change (dispatched [Sleep 2]) with (@nil string) in Hd.
    change (import_runs [Sleep 2]) with 0%nat in Hi.
    rewrite app_nil_r in Hd. rewrite Nat.add_0_r in Hi.
    split; [by right | done].
Qed.

Lemma callback_dispatches_own_path_at_most_once_witness :
  let world := Sample.steady 100 10 60 Sample.exit0 (Ok 204) in
  let event := {| is_directory := false;
                  src_path := "incoming/album/track.flac" |} in
  let s' := (exec_op (PL := Sample.posix) Sample.config world
               (Closed event) Sample.one_pending).2 in
  (import_runs (trace s') ≤ import_runs (trace Sample.one_pending) + 1)%nat.
Proof.
  cbn zeta.
  refine (proj2 (callback_dispatches_own_path_at_most_once (PL := Sample.posix)
            Sample.config (Sample.steady 100 10 60 Sample.exit0 (Ok 204))
            {| is_directory := false; src_path := "incoming/album/track.flac" |}
            (Closed {| is_directory := false;
                       src_path := "incoming/album/track.flac" |})
            Sample.one_pending _)).
  do 2 right. left.
Defined.

(** ** A proof principle for histories *)

Section Histories.

Context {PL : PathLib}.
Variable CONFIG : Config.
Variable world : Oracle.

(** A relation between an earlier and a later state that is transitive,
    holds across [process_file], and holds across every step that leaves
    the processed set alone and has incidental effects only. *)
Variable R : State → State → Prop.
Hypothesis R_trans : ∀ s1 s2 s3, R s1 s2 → R s2 s3 → R s1 s3.
Hypothesis R_process_file :
  ∀ file_path s, R s (process_file CONFIG world file_path s).2.
Hypothesis R_incidental :
  ∀ s s' evs,
    processed_files s' = processed_files s →
    trace s' = trace s ++ evs → forallb incidental evs = true → R s s'.

Lemma along_refl (s : State) : R s s.
Proof. apply (R_incidental s s []); [done | by rewrite app_nil_r | done]. Qed.

Lemma along_handle_file (file_path : string) (s : State) :
  R s (handle_file CONFIG world file_path s).2.
Proof.
  unfold handle_file. run.
  cases; try apply along_refl;
    try (eapply R_incidental;
         [ reflexivity
         | cbn; first [reflexivity | symmetry; apply app_nil_r]
         | reflexivity ]);
    match goal with
    | H : process_file _ _ ?p ?st = (_, ?s0) |- _ =>
        pose proof (R_process_file p st) as Hg; rewrite H in Hg; cbn in Hg
    end.
  - eapply R_trans; [| exact Hg].
    eapply R_incidental; [reflexivity | cbn; symmetry; apply app_nil_r | done].
  - eapply R_trans; [eapply R_trans; [| exact Hg] |].
    + eapply R_incidental; [reflexivity | cbn; symmetry; apply app_nil_r | done].
    + eapply R_incidental; [reflexivity | reflexivity | done].
  - eapply R_trans; [| exact Hg].
    eapply R_incidental; [reflexivity | cbn; symmetry; apply app_nil_r | done].
Qed.

Lemma along_import_ready (to_process : list string) (s : State) :
  R s (import_ready CONFIG world to_process s).2.
Proof.
  revert s. induction to_process as [|p rest IH]; intros s; cbn.
  - apply along_refl.
  - run. destruct (dict_del p (pending_imports s)) as [d|]; cbn.
    2: apply along_refl.
    match goal with |- context [process_file CONFIG world p ?st] =>
      pose proof (R_process_file p st) as Hg;
      destruct (process_file CONFIG world p st) as [[[]|e] s1] end; cbn in *.
    + eapply R_trans; [| apply IH].
      eapply R_trans; [| exact Hg].
      eapply R_incidental; [reflexivity | cbn; symmetry; apply app_nil_r | done].
    + eapply R_trans; [| exact Hg].
      eapply R_incidental; [reflexivity | cbn; symmetry; apply app_nil_r | done].
Qed.

Lemma along_process_pending (s : State) :
  R s (process_pending CONFIG world s).2.
Proof.
  unfold process_pending. run.
  match goal with |- context [scan_pending CONFIG world ?now ?items ?acc ?st] =>
    destruct (scan_pending_frame CONFIG world now items acc st) as [n Hn];
    destruct (scan_pending CONFIG world now items acc st) as [[l|e] s1] end;
    cbn in *; subst s1.
  - eapply R_trans; [| apply along_import_ready].
    eapply R_incidental; [reflexivity | reflexivity | done].
  - eapply R_incidental; [reflexivity | reflexivity | done].
Qed.

Lemma along_exec_op (op : Op) (s : State) :
  R s (exec_op CONFIG world op s).2.
Proof.
  destruct op as [ev|ev|ev|]; cbn.
  - unfold on_created. destruct (is_directory ev);
      [apply along_refl | apply along_handle_file].
  - unfold on_modified. destruct (is_directory ev);
      [apply along_refl | apply along_handle_file].
  - unfold on_closed. run. cases; try apply along_refl.
    eapply R_trans; [| apply R_process_file].
    eapply R_incidental; [reflexivity | reflexivity | done].
  - unfold poll_once. run.
    eapply R_trans; [| apply along_process_pending].
    eapply R_incidental; [reflexivity | reflexivity | done].
Qed.

Lemma along_exec_ops (ops : list Op) (s : State) :
  R s (exec_ops CONFIG world ops s).
Proof.
  revert s. induction ops as [|op ops IH]; intros s; cbn.
  - apply along_refl.
  - eapply R_trans; [apply along_exec_op | apply IH].
Qed.

End Histories.

Lemma incidental_quiet {PL : PathLib} (evs : list Event) :
  forallb incidental evs = true →
  successes evs = [] ∧ rescans evs = 0%nat ∧ posts evs = 0%nat ∧
  import_runs evs = 0%nat ∧ dispatched evs = [].
Proof.
  induction evs as [|ev evs IH]; [done |]. cbn [forallb].
  intros [Hev Hevs]%andb_true_iff. destruct (IH Hevs) as (H1 & H2 & H3 & H4 & H5).
  unfold successes, rescans, posts, import_runs, dispatched in *.
  destruct ev as [| |lvl msg| | |]; try done; cbn.
  destruct msg; try done; destruct lvl; cbn; by rewrite ?H1, ?H2, ?H3, ?H4, ?H5.
Qed.

(** ** The processed set and the log of successes *)

(** X6.  Along every history the processed set is exactly what it was at
    the start together with the paths whose import was logged as
    successful since: a path enters [processed_files] only through a
    successful import, and every successful import is recorded. *)
Theorem processed_files_are_the_successes {PL : PathLib}
  (CONFIG : Config) (world : Oracle) (ops : list Op) (s : State) :
  let s' := exec_ops CONFIG world ops s in
  processed_files s'
  = processed_files s ∪ list_to_set (successes (drop (length (trace s)) (trace s'))).
Proof.
  cbn zeta.
  assert (H : ∃ evs,
    trace (exec_ops CONFIG world ops s) = trace s ++ evs ∧
    processed_files (exec_ops CONFIG world ops s)
    = processed_files s ∪ list_to_set (successes evs)).
  { apply (along_exec_ops CONFIG world
      (λ s s', ∃ evs, trace s' = trace s ++ evs ∧
                processed_files s' = processed_files s ∪ list_to_set (successes evs))).
    - intros s1 s2 s3 (evs1 & Ht1 & HP1) (evs2 & Ht2 & HP2).
      exists (evs1 ++ evs2). split; [by rewrite Ht2, Ht1, app_assoc |].
      rewrite HP2, HP1, successes_app, list_to_set_app_L.
      by rewrite (assoc_L (∪)).
    - intros p s0.
      destruct (process_file_shape CONFIG world p s0)
        as (n & evs & P' & -> & Hd & [(-> & Hs & _) | (Hnin & -> & Hs & _)]);
        cbn [snd trace processed_files]; eexists; (split; [reflexivity |]);
        unfold successes in *; cbn; rewrite Hs; cbn.
      + by rewrite (right_id_L ∅ (∪)).
      + by rewrite (right_id_L ∅ (∪)), (comm_L (∪)).
    - intros s0 s1 evs HP Ht Hev. exists evs. split; [done |].
      destruct (incidental_quiet evs Hev) as (-> & _).
      cbn. by rewrite HP, (right_id_L ∅ (∪)). }
  destruct H as (evs & -> & ->). by rewrite drop_app_length.
Qed.

(** ** Imports and rescans *)

Section Accounting.

Context {PL : PathLib}.
Variable CONFIG : Config.
Variable world : Oracle.

Lemma trigger_jellyfin_rescan_posts (s : State) :
  ∃ n evs,
    trigger_jellyfin_rescan CONFIG world s
    = (Returned tt, advance n (Enter_trigger_jellyfin_rescan :: evs) s) ∧
    successes evs = [] ∧ rescans evs = 0%nat ∧
    posts evs = if rescan_configured CONFIG then 1%nat else 0%nat.
Proof.
  unfold trigger_jellyfin_rescan, rescan_configured. run.
  destruct (truthy_opt (jellyfin_api_key CONFIG));
    destruct (truthy (jellyfin_url CONFIG)); cbn;
    cases; flat;
    (first [ exists 0%nat; eexists; split; [reflexivity |]
           | exists 1%nat; eexists; split; [reflexivity |] ]);
    by cbn.
Qed.

Lemma process_file_accounting (file_path : string) (s : State) :
  ∃ evs,
    trace (process_file CONFIG world file_path s).2 = trace s ++ evs ∧
    rescans evs = length (successes evs) ∧
    posts evs = if rescan_configured CONFIG then rescans evs else 0%nat.
Proof.
  unfold process_file. run.
  case_bool_decide as Hin; cbn.
  { eexists. split; [reflexivity |]. cbn. by destruct (rescan_configured _). }
  destruct (o_is_file world (tick s) (path_str file_path)) as [isf|e]; cbn.
  2: { destruct e; cbn; flat; eexists; (split; [reflexivity |]); cbn;
       by destruct (rescan_configured _). }
  match goal with |- context [o_run world ?t ?c ?to ?d] =>
    destruct (o_run world t c to d) as [r|e] end; cbn.
  2: { destruct e; cbn; flat; eexists; (split; [reflexivity |]); cbn;
       by destruct (rescan_configured _). }
  destruct (import_succeeded r); cbn.
  - match goal with |- context [trigger_jellyfin_rescan CONFIG world ?s0] =>
      destruct (trigger_jellyfin_rescan_posts s0)
        as (n & evs & -> & Hs & Hr & Hp) end.
    unfold advance. cbn. flat. eexists. split; [reflexivity |].
    unfold successes, rescans, posts in *. cbn. rewrite Hs, Hr, Hp.
    by destruct (rescan_configured _).
  - flat. eexists. split; [reflexivity |]. cbn.
    by destruct (rescan_configured _).
Qed.

End Accounting.

(** X7.  Along every history the Rescan Notifier is entered exactly once
    per successful import, never without one.  With the API key and the
    server URL configured every entry sends exactly one request (no retry,
    whatever the server answers); with either missing no request is ever
    sent. *)
Theorem one_rescan_per_successful_import {PL : PathLib}
  (CONFIG : Config) (world : Oracle) (ops : list Op) (s : State) :
  let new := drop (length (trace s)) (trace (exec_ops CONFIG world ops s)) in
  rescans new = length (successes new) ∧
  posts new = if rescan_configured CONFIG then rescans new else 0%nat.
Proof.
  cbn zeta.
  assert (H : ∃ evs,
    trace (exec_ops CONFIG world ops s) = trace s ++ evs ∧
    rescans evs = length (successes evs) ∧
    posts evs = if rescan_configured CONFIG then rescans evs else 0%nat).
  { apply (along_exec_ops CONFIG world
      (λ s s', ∃ evs, trace s' = trace s ++ evs ∧
                rescans evs = length (successes evs) ∧
                posts evs = if rescan_configured CONFIG then rescans evs
                            else 0%nat)).
    - intros s1 s2 s3 (evs1 & Ht1 & Hr1 & Hp1) (evs2 & Ht2 & Hr2 & Hp2).
      exists (evs1 ++ evs2). split; [by rewrite Ht2, Ht1, app_assoc |].
      rewrite rescans_app, posts_app, successes_app, length_app, Hp1, Hp2.
      split; [lia |]. by destruct (rescan_configured _).
    - intros p s0. apply process_file_accounting.
    - intros s0 s1 evs HP Ht Hev. exists evs. split; [done |].
      destruct (incidental_quiet evs Hev) as (-> & -> & -> & _).
      by destruct (rescan_configured _). }
  destruct H as (evs & -> & H). by rewrite drop_app_length.
Qed.

(** ** A failed import is not remembered *)

(** X8.  When beets fails on a path (it raises, times out, or ends with a
    non-zero status and no skip marker), the path stays unprocessed and
    [pending_imports] is untouched, so the next [process_file] on it
    launches beets again; if that run succeeds the path is processed, and
    beets has been launched twice in all. *)
Theorem failed_import_is_retried {PL : PathLib}
  (CONFIG : Config) (world : Oracle) (file_path : string) (s : State)
  (is_file : bool) :
  path_str file_path ∉ processed_files s →
  o_is_file world (tick s) (path_str file_path) = Ok is_file →
  (∀ r, o_run world (1 + tick s)
          (beets_cmd CONFIG
             (if is_file then path_parent file_path else path_str file_path))
          600 (script_dir CONFIG) = Ok r →
        import_succeeded r = false) →
  let s1 := (process_file CONFIG world file_path s).2 in
  tick s1 = (2 + tick s)%nat ∧
  (path_str file_path ∉ processed_files s1) ∧
  pending_imports s1 = pending_imports s ∧
  import_runs (trace s1) = (import_runs (trace s) + 1)%nat ∧
  ∀ is_file' r',
    o_is_file world (tick s1) (path_str file_path) = Ok is_file' →
    o_run world (1 + tick s1)
      (beets_cmd CONFIG
         (if is_file' then path_parent file_path else path_str file_path))
      600 (script_dir CONFIG) = Ok r' →
    import_succeeded r' = true →
    let s2 := (process_file CONFIG world file_path s1).2 in
    path_str file_path ∈ processed_files s2 ∧
    import_runs (trace s2) = (import_runs (trace s) + 2)%nat.
Proof.
  intros Hproc Hisf Hfail.
  assert (H1 : ∃ evs,
    (process_file CONFIG world file_path s).2
    = {| pending_imports := pending_imports s;
         processed_files := processed_files s;
         tick := (2 + tick s)%nat;
         trace := trace s ++ evs |}).
  { unfold process_file. run. rewrite bool_decide_eq_false_2 by done. cbn.
    rewrite Hisf. cbn.
    match goal with |- context [o_run world ?t ?c ?to ?d] =>
      destruct (o_run world t c to d) as [r|e] eqn:Erun end; cbn.
    - rewrite (Hfail r eq_refl). cbn. flat. by eexists.
    - destruct e; cbn; flat; by eexists. }
  destruct H1 as (evs & Hs1).
  assert (Hruns : ∀ st isf,
    path_str file_path ∉ processed_files st →
    o_is_file world (tick st) (path_str file_path) = Ok isf →
    import_runs (trace (process_file CONFIG world file_path st).2)
    = (import_runs (trace st) + 1)%nat).
  { intros st isf Hp Hi.
    destruct (process_file_run_shape CONFIG world file_path st) as (evs' & -> & Hr).
    rewrite bool_decide_eq_false_2, Hi in Hr by done.
    rewrite import_runs_app.
    change (import_runs (Enter_process_file file_path :: evs'))
      with (length (List.filter is_run evs')).
    by rewrite Hr. }
  cbn zeta. rewrite (Hruns s is_file Hproc Hisf). rewrite Hs1.
  cbn [tick processed_files pending_imports].
  split_and!; [done | done | done | done |].
  intros isf' r' Hisf' Hrun' Hok'.
  rewrite <- Hs1.
  assert (Hproc1 : path_str file_path
                   ∉ processed_files (process_file CONFIG world file_path s).2)
    by by rewrite Hs1.
  assert (Htick : tick (process_file CONFIG world file_path s).2
                  = (2 + tick s)%nat) by by rewrite Hs1.
  split.
  - rewrite (process_file_completed CONFIG world file_path _ isf' r');
      [| done | by rewrite Htick | by rewrite Htick].
    rewrite Hok'.
    match goal with |- context [trigger_jellyfin_rescan CONFIG world ?st] =>
      destruct (trigger_jellyfin_rescan_shape CONFIG world st)
        as (n & evs2 & -> & _) end.
    cbn. apply elem_of_union_l. by apply elem_of_singleton.
  - rewrite (Hruns _ isf' Hproc1) by by rewrite Htick.
    rewrite (Hruns s is_file Hproc Hisf). lia.
Qed.

Lemma failed_import_is_retried_witness :
  let s1 := (process_file (PL := Sample.posix) Sample.config
               (Sample.steady 100 10 60 Sample.exit1 (Ok 204))
               "incoming/album/track.flac" initial_state).2 in
  tick s1 = 2%nat ∧
  ("incoming/album/track.flac" ∉ processed_files s1) ∧
  import_runs (trace s1) = 1%nat.
Proof.
  cbn zeta.
  pose proof (failed_import_is_retried (PL := Sample.posix) Sample.config
                (Sample.steady 100 10 60 Sample.exit1 (Ok 204))
                "incoming/album/track.flac" initial_state true) as H.
  destruct H as (H1 & H2 & _ & H4 & _).
  - intros Hin. pose proof (bool_decide_pack _ Hin) as Hb.
    vm_compute in Hb. exact Hb.
  - reflexivity.
  - intros r Hr. injection Hr as <-. reflexivity.
  - split_and!; [exact H1 | exact H2 | exact H4].
Defined.

(** ** The pending dictionary *)

Lemma dict_entry_unique (d : list (string * Z)) (e e' : string * Z) :
  NoDup d.*1 → e ∈ d → e' ∈ d → e.1 = e'.1 → e = e'.
Proof.
  induction d as [|x d IH]; intros Hnd He He' Hk.
  - by apply elem_of_nil in He.
  - rewrite fmap_cons in Hnd. apply NoDup_cons in Hnd as [Hx Hnd].
    apply elem_of_cons in He as [-> | He];
      apply elem_of_cons in He' as [-> | He']; [done | | | by apply IH].
    + exfalso. apply Hx. rewrite Hk. by apply list_elem_of_fmap_2.
    + exfalso. apply Hx. rewrite <- Hk. by apply list_elem_of_fmap_2.
Qed.

(** [handle_file] on a path that passes the checks and is younger than
    [watch_delay]. *)
Lemma handle_file_too_new {PL : PathLib}
  (CONFIG : Config) (world : Oracle) (file_path : string) (s : State)
  (st0 st : stat_result) :
  str_lower (path_suffix file_path) ∈ file_extensions CONFIG →
  o_exists world (tick s) (path_str file_path) = Ok true →
  o_stat world (1 + tick s) (path_str file_path) = Ok st0 →
  st_size st0 ≠ 0 →
  path_str file_path ∉ processed_files s →
  o_stat world (2 + tick s) (path_str file_path) = Ok st →
  o_time world (3 + tick s) - st_mtime st < watch_delay CONFIG →
  handle_file CONFIG world file_path s
  = (Returned tt,
     {| pending_imports :=
          dict_set (path_str file_path) (o_time world (4 + tick s))
            (pending_imports s);
        processed_files := processed_files s;
        tick := (5 + tick s)%nat;
        trace := trace s ++ [Log INFO (MsgNewWaiting file_path)] |}).
Proof.
  intros Hext Hex Hst0 Hsize Hproc Hst Hage. unfold handle_file. run.
  rewrite bool_decide_eq_true_2 by done. cbn.
  rewrite Hex. cbn. rewrite Hst0. cbn.
  rewrite (proj2 (Z.eqb_neq _ _) Hsize).
  rewrite bool_decide_eq_false_2 by done. cbn. rewrite Hst. cbn.
  by rewrite (proj2 (Z.ltb_lt _ _) Hage).
Qed.

(** X9.  A notification for a file still younger than [watch_delay] changes
    the entry of that path and nothing else: every other entry keeps its
    timestamp, the order of the keys is kept, a path already pending keeps
    its place, a new path goes last, and no key occurs twice. *)
Theorem too_new_notification_touches_own_entry {PL : PathLib}
  (CONFIG : Config) (world : Oracle) (file_path : string) (s : State)
  (st0 st : stat_result) :
  str_lower (path_suffix file_path) ∈ file_extensions CONFIG →
  o_exists world (tick s) (path_str file_path) = Ok true →
  o_stat world (1 + tick s) (path_str file_path) = Ok st0 →
  st_size st0 ≠ 0 →
  path_str file_path ∉ processed_files s →
  o_stat world (2 + tick s) (path_str file_path) = Ok st →
  o_time world (3 + tick s) - st_mtime st < watch_delay CONFIG →
  let d := pending_imports s in
  let d' := pending_imports (handle_file CONFIG world file_path s).2 in
  d'.*1 = (if dict_mem (path_str file_path) d then d.*1
           else d.*1 ++ [path_str file_path]) ∧
  (∀ k, k ≠ path_str file_path → dict_get k d' = dict_get k d) ∧
  (NoDup d.*1 → NoDup d'.*1).
Proof.
  intros Hext Hex Hst0 Hsize Hproc Hst Hage. cbn zeta.
  rewrite (handle_file_too_new CONFIG world file_path s st0 st) by assumption.
  cbn [snd pending_imports]. split_and!.
  - apply dict_set_keys.
  - intros k Hk. by apply dict_get_set_ne.
  - apply dict_set_NoDup.
Qed.

Lemma too_new_notification_touches_own_entry_witness :
  let d' := pending_imports
              (handle_file (PL := Sample.posix) Sample.config
                 (Sample.steady 100 10 90 Sample.exit0 (Ok 204))
                 "incoming/album/track.flac" Sample.one_pending).2 in
  d'.*1 = ["incoming/album/track.flac"].
Proof.
  cbn zeta.
  refine (proj1 (too_new_notification_touches_own_entry (PL := Sample.posix)
            Sample.config (Sample.steady 100 10 90 Sample.exit0 (Ok 204))
            "incoming/album/track.flac" Sample.one_pending
            {| st_size := 10; st_mtime := 90 |}
            {| st_size := 10; st_mtime := 90 |}
            _ eq_refl eq_refl _ _ eq_refl _)).
  - apply (bool_decide_unpack _). vm_compute. exact I.
  - cbn. lia.
  - intros Hin. pose proof (bool_decide_pack _ Hin) as Hb.
    vm_compute in Hb. exact Hb.
  - cbn. lia.
Defined.

(** X10.  Over two consecutive polls with a filesystem that holds still,
    the first poll dispatches exactly the entries promotable at its clock
    reading and the second exactly those of the remaining entries that are
    promotable at its own.  An entry promotable at the first poll is
    dispatched by it, is not dispatched again by the second and has left
    [pending_imports]; no path is dispatched twice: a pending file is
    promoted exactly once. *)
Theorem consecutive_polls_dispatch_once {PL : PathLib}
  (CONFIG : Config) (world : Oracle)
  (ex : string → answer bool) (st : string → answer stat_result) (s : State) :
  (∀ t k, o_exists world t k = ex k) →
  (∀ t k, o_stat world t k = st k) →
  (∀ k e, ex k = Raise e ∨ st k = Raise e → is_OSError e = true) →
  NoDup (pending_imports s).*1 →
  let d := pending_imports s in
  let r1 := process_pending CONFIG world s in
  let r2 := process_pending CONFIG world r1.2 in
  let ready1 := promotable (watch_delay CONFIG) (o_time world (tick s)) ex st in
  let ready2 :=
    promotable (watch_delay CONFIG) (o_time world (tick r1.2)) ex st in
  let l1 := (filter ready1 d).*1 in
  let l2 := (filter ready2 (filter (λ entry, ¬ ready1 entry) d)).*1 in
  dispatched (trace r1.2) = dispatched (trace s) ++ l1 ∧
  dispatched (trace r2.2) = dispatched (trace s) ++ l1 ++ l2 ∧
  pending_imports r2.2
  = filter (λ entry, ¬ ready2 entry) (filter (λ entry, ¬ ready1 entry) d) ∧
  NoDup (l1 ++ l2) ∧
  (∀ entry, entry ∈ d → ready1 entry →
     entry.1 ∈ l1 ∧ (entry.1 ∉ l2) ∧ entry.1 ∉ (pending_imports r2.2).*1) ∧
  (∀ entry, entry ∈ d → ¬ ready1 entry → ready2 entry →
     entry.1 ∈ l2 ∧ entry.1 ∉ (pending_imports r2.2).*1).
Proof.
  intros Hex Hst Hos Hnd d r1 r2 ready1 ready2 l1 l2.
  destruct (process_pending_snapshot CONFIG world ex st s Hex Hst Hos Hnd)
    as (_ & Hp1 & Hd1 & _).
  fold r1 ready1 d in Hp1, Hd1. fold l1 in Hd1.
  assert (Hnd1 : NoDup (pending_imports r1.2).*1).
  { rewrite Hp1. apply (sublist_NoDup _ d.*1); [exact Hnd |].
    apply fmap_sublist, sublist_filter. }
  destruct (process_pending_snapshot CONFIG world ex st r1.2 Hex Hst Hos Hnd1)
    as (_ & Hp2 & Hd2 & _).
  fold r2 ready2 in Hp2, Hd2. rewrite Hp1 in Hp2, Hd2. fold l2 in Hd2.
  assert (Hdisj : ∀ e1 e2, e1 ∈ d → e2 ∈ d → ready1 e1 → ¬ ready1 e2 →
                           e1.1 ≠ e2.1).
  { intros e1 e2 He1 He2 Hr1 Hr2 Hk. apply Hr2.
    by rewrite <- (dict_entry_unique d e1 e2 Hnd He1 He2 Hk). }
  assert (Hgone : ∀ p, p ∈ l1 ++ l2 → p ∉ (pending_imports r2.2).*1).
  { intros p Hp Hpend. rewrite Hp2 in Hpend.
    apply list_elem_of_fmap in Hpend
      as (e & Hk & [Hn2 [Hn1 He]%list_elem_of_filter]%list_elem_of_filter).
    apply elem_of_app in Hp as [Hp | Hp].
    - apply list_elem_of_fmap in Hp as (e1 & -> & [Hr1 He1]%list_elem_of_filter).
      by apply (Hdisj e1 e He1 He Hr1 Hn1).
    - apply list_elem_of_fmap in Hp
        as (e2 & -> & [Hr2 [Hn1' He2]%list_elem_of_filter]%list_elem_of_filter).
      apply Hn2. by rewrite <- (dict_entry_unique d e2 e Hnd He2 He Hk). }
  split_and!.
  - exact Hd1.
  - by rewrite Hd2, Hd1, <- app_assoc.
  - exact Hp2.
  - apply NoDup_app. split_and!.
    + apply (sublist_NoDup _ d.*1); [exact Hnd |].
      apply fmap_sublist, sublist_filter.
    + intros p Hp1' Hp2'.
      apply list_elem_of_fmap in Hp1' as (e1 & -> & [Hr1 He1]%list_elem_of_filter).
      apply list_elem_of_fmap in Hp2'
        as (e2 & Hk & [_ [Hn1 He2]%list_elem_of_filter]%list_elem_of_filter).
      by apply (Hdisj e1 e2 He1 He2 Hr1 Hn1).
    + apply (sublist_NoDup _ d.*1); [exact Hnd |].
      apply fmap_sublist. etrans; apply sublist_filter.
  - intros entry He Hr1.
    assert (Hin1 : entry.1 ∈ l1).
    { apply list_elem_of_fmap_2. by apply list_elem_of_filter. }
    split_and!; [exact Hin1 | |].
    + intros Hin2.
      apply list_elem_of_fmap in Hin2
        as (e2 & Hk & [_ [Hn1 He2]%list_elem_of_filter]%list_elem_of_filter).
      by apply (Hdisj entry e2 He He2 Hr1 Hn1).
    + apply Hgone. apply elem_of_app. by left.
  - intros entry He Hn1 Hr2.
    assert (Hin2 : entry.1 ∈ l2).
    { apply list_elem_of_fmap_2. apply list_elem_of_filter. split; [done |].
      by apply list_elem_of_filter. }
    split; [exact Hin2 |]. apply Hgone. apply elem_of_app. by right.
Qed.

Lemma consecutive_polls_dispatch_once_witness :
  let world := Sample.steady 100 10 60 Sample.exit1 (Ok 204) in
  let r1 := process_pending (PL := Sample.posix) Sample.config world
              Sample.one_pending in
  let r2 := process_pending (PL := Sample.posix) Sample.config world r1.2 in
  dispatched (trace r1.2) = ["incoming/album/track.flac"] ∧
  dispatched (trace r2.2) = ["incoming/album/track.flac"] ∧
  pending_imports r2.2 = [].
Proof.
  cbn zeta.
  pose proof (consecutive_polls_dispatch_once (PL := Sample.posix)
                Sample.config
                (Sample.steady 100 10 60 Sample.exit1 (Ok 204))
                (fun _ => Ok true)
                (fun _ => Ok {| st_size := 10; st_mtime := 60 |})
                Sample.one_pending) as H.
  destruct H as (H1 & H2 & H3 & _).
  - reflexivity.
  - reflexivity.
  - intros k e [H | H]; discriminate.
  - cbn. apply NoDup_singleton.
  - split_and!; [exact H1 | exact H2 | exact H3].
Defined.

(** X11.  A pending entry whose file no longer exists is never removed:
    however many polls follow, it is still in [pending_imports] with the
    timestamp it had. *)
Theorem vanished_file_stays_pending {PL : PathLib}
  (CONFIG : Config) (world : Oracle)
  (ex : string → answer bool) (st : string → answer stat_result) (s : State)
  (entry : string * Z) (n : nat) :
  (∀ t k, o_exists world t k = ex k) →
  (∀ t k, o_stat world t k = st k) →
  (∀ k e, ex k = Raise e ∨ st k = Raise e → is_OSError e = true) →
  NoDup (pending_imports s).*1 →
  entry ∈ pending_imports s →
  ex (path_str entry.1) = Ok false →
  entry ∈ pending_imports (exec_ops CONFIG world (replicate n Poll) s).
Proof.
  intros Hex Hst Hos Hnd Hin Hgone. revert s Hnd Hin.
  induction n as [|n IH]; intros s Hnd Hin; [done |].
  cbn [replicate exec_ops]. apply IH.
  - cbn. unfold poll_once. run. by apply process_pending_keys.
  - cbn. unfold poll_once. run.
    match goal with |- context [process_pending CONFIG world ?s0] =>
      destruct (process_pending_snapshot CONFIG world ex st s0 Hex Hst Hos Hnd)
        as (_ & -> & _) end.
    apply list_elem_of_filter. split; [| done].
    unfold promotable. rewrite Hgone. rewrite andb_false_r. intros [].
Qed.

Lemma vanished_file_stays_pending_witness :
  ("incoming/album/track.flac", 60)
  ∈ pending_imports
      (exec_ops (PL := Sample.posix) Sample.config
         {| o_time := fun _ => 100;
            o_exists := fun _ _ => Ok false;
            o_stat := fun _ _ => Raise FileNotFoundError;
            o_is_file := fun _ _ => Ok false;
            o_run := fun _ _ _ _ => Sample.exit0;
            o_post := fun _ _ _ _ _ => Ok 204 |}
         (replicate 3 Poll) Sample.one_pending).
Proof.
  apply (vanished_file_stays_pending (PL := Sample.posix) Sample.config _
           (fun _ => Ok false) (fun _ => Raise FileNotFoundError)).
  - reflexivity.
  - reflexivity.
  - intros k e [H | H]; [discriminate | by injection H as <-].
  - cbn. apply NoDup_singleton.
  - cbn. apply list_elem_of_singleton. reflexivity.
  - reflexivity.
Defined.

(** ** What is dispatched, and when *)

(** X12.  [handle_file] dispatches only a path that passed every check: a
    media suffix, a file that exists with non-zero size, not yet processed,
    and a modification time at least [watch_delay] before the clock.  A
    file younger than that is never dispatched by a notification. *)
Theorem handle_file_dispatches_only_settled {PL : PathLib}
  (CONFIG : Config) (world : Oracle) (file_path : string) (s : State) :
  dispatched (trace (handle_file CONFIG world file_path s).2)
  ≠ dispatched (trace s) →
  str_lower (path_suffix file_path) ∈ file_extensions CONFIG ∧
  o_exists world (tick s) (path_str file_path) = Ok true ∧
  (∃ st0, o_stat world (1 + tick s) (path_str file_path) = Ok st0 ∧
          st_size st0 ≠ 0) ∧
  (path_str file_path ∉ processed_files s) ∧
  ∃ st, o_stat world (2 + tick s) (path_str file_path) = Ok st ∧
        watch_delay CONFIG ≤ o_time world (3 + tick s) - st_mtime st.
Proof.
  unfold handle_file. run.
  cases; intros Hd;
    try (exfalso; apply Hd; cbn [snd trace]; rewrite ?dispatched_app; cbn;
         by rewrite ?app_nil_r);
    repeat match goal with
           | H : negb _ = false |- _ => apply negb_false_iff in H
           | H : bool_decide _ = true |- _ => apply bool_decide_eq_true_1 in H
           | H : bool_decide _ = false |- _ => apply bool_decide_eq_false_1 in H
           | H : (_ =? _) = false |- _ => apply Z.eqb_neq in H
           | H : (_ <? _) = false |- _ => apply Z.ltb_ge in H
           end;
    subst; split_and!; eauto.
Qed.

Lemma handle_file_dispatches_only_settled_witness :
  ∃ st, o_stat (Sample.steady 100 10 60 Sample.exit0 (Ok 204)) 2
          "incoming/album/track.flac" = Ok st ∧
        watch_delay Sample.config ≤ 100 - st_mtime st.
Proof.
  refine (proj2 (proj2 (proj2 (proj2
    (handle_file_dispatches_only_settled (PL := Sample.posix) Sample.config
       (Sample.steady 100 10 60 Sample.exit0 (Ok 204))
       "incoming/album/track.flac" initial_state _))))).
  vm_compute. discriminate.
Defined.

Lemma filter_ext_in {A} (P Q : A → Prop)
  `{!∀ x, Decision (P x), !∀ x, Decision (Q x)} (l : list A) :
  (∀ x, x ∈ l → P x ↔ Q x) → filter P l = filter Q l.
Proof.
  induction l as [|a l IH]; intros Hext; [done |].
  assert (Hl : filter P l = filter Q l).
  { apply IH. intros x Hx. apply Hext. by right. }
  destruct (decide (P a)) as [Ha | Ha].
  - rewrite !filter_cons_True; [by rewrite Hl | | done].
    apply Hext; [by left | done].
  - rewrite !filter_cons_False; [done | | done].
    intros Hq. apply Ha. apply Hext; [by left | done].
Qed.

Section PollGeneral.

Context {PL : PathLib}.
Variable CONFIG : Config.
Variable world : Oracle.

(** The second loop on keys of the dictionary in dictionary order: they
    leave the dictionary and are dispatched in that order. *)
Lemma import_ready_listed (suffix pre : list (string * Z))
  (l : list string) (s : State) :
  l `sublist_of` suffix.*1 →
  pending_imports s = pre ++ suffix →
  NoDup (pre ++ suffix).*1 →
  ∃ s',
    import_ready CONFIG world l s = (Returned tt, s') ∧
    pending_imports s' = pre ++ filter (λ entry, entry.1 ∉ l) suffix ∧
    dispatched (trace s') = dispatched (trace s) ++ l.
Proof.
  revert pre l s. induction suffix as [|[k v] suffix IH]; intros pre l s Hl Hp Hnd.
  - apply sublist_nil_r in Hl as ->. exists s. rewrite app_nil_r in Hp.
    rewrite filter_nil. cbn. by rewrite !app_nil_r.
  - assert (Hk : k ∉ suffix.*1).
    { rewrite fmap_app, fmap_cons in Hnd.
      apply NoDup_app in Hnd as (_ & _ & Hnd). by apply NoDup_cons in Hnd as [? _]. }
    rewrite fmap_cons in Hl. apply sublist_cons_r in Hl as [Hl | (l' & -> & Hl)].
    + destruct (IH (pre ++ [(k, v)]) l s) as (s' & Hir & Hp' & Hd');
        [done | by rewrite <- app_assoc | by rewrite <- app_assoc |].
      exists s'. split_and!; [done | | done].
      rewrite filter_cons_True; [by rewrite Hp', <- app_assoc |].
      cbn. intros Hin. apply Hk. eapply elem_of_sublist; [exact Hin | exact Hl].
    + assert (Hf : filter (λ entry : string * Z, entry.1 ∉ k :: l')
                       ((k, v) :: suffix)
                     = filter (λ entry : string * Z, entry.1 ∉ l') suffix).
      { rewrite filter_cons_False by (cbn; intros Hn; apply Hn; by left).
        apply filter_ext_in. intros [k0 v0] Hin. cbn.
        rewrite not_elem_of_cons. split; [by intros [_ ?] | intros Hn].
        split; [| done]. intros ->. apply Hk.
        by apply (list_elem_of_fmap_2 fst) in Hin. }
      cbn [fst]. rewrite Hf. clear Hf. cbn [import_ready]. run.
      rewrite Hp, dict_del_app.
      2: { rewrite fmap_app, fmap_cons in Hnd.
           apply NoDup_app in Hnd as (_ & Hd & _).
           intros Hin. apply (Hd k Hin). by left. }
      cbn.
      match goal with |- context [process_file CONFIG world k ?st] =>
        destruct (process_file_shape CONFIG world k st)
          as (n & evs & P' & Hpf & Hd & _); rewrite Hpf; clear Hpf end.
      cbn.
      match goal with |- context [import_ready CONFIG world _ ?st] =>
        destruct (IH pre l' st) as (s' & -> & Hp' & Hd') end.
      { done. }
      { reflexivity. }
      { rewrite fmap_app, fmap_cons in Hnd. rewrite fmap_app.
        apply NoDup_app in Hnd as (H1 & H2 & H3).
        apply NoDup_cons in H3 as [_ H3].
        apply NoDup_app. split_and!; [done | | done].
        intros x Hx Hx'. apply (H2 x Hx). by right. }
      exists s'. split_and!; [done | done |].
      rewrite Hd'. cbn [trace]. rewrite dispatched_app.
        change (dispatched (Enter_process_file k :: evs))
          with (k :: dispatched evs).
        by rewrite Hd, <- app_assoc.
Qed.

End PollGeneral.

(** X13.  Whatever the filesystem answers between calls (operating-system
    errors only), a poll dispatches keys of [pending_imports] only, each at
    most once and in dictionary order; exactly the dispatched keys leave
    the dictionary, and no entry is added or changed. *)
Theorem process_pending_dispatches_pending_keys {PL : PathLib}
  (CONFIG : Config) (world : Oracle) (s : State) :
  (∀ t k e, o_exists world t k = Raise e ∨ o_stat world t k = Raise e →
            is_OSError e = true) →
  NoDup (pending_imports s).*1 →
  let r := process_pending CONFIG world s in
  ∃ l,
    l `sublist_of` (pending_imports s).*1 ∧
    dispatched (trace r.2) = dispatched (trace s) ++ l ∧
    pending_imports r.2 = filter (λ entry, entry.1 ∉ l) (pending_imports s).
Proof.
  intros Hos Hnd r. subst r. unfold process_pending. run.
  match goal with |- context [scan_pending CONFIG world ?now ?items ?acc ?st0] =>
    destruct (scan_pending_returns CONFIG world Hos now items acc st0)
      as (n & l & -> & Hl) end.
  cbn [app].
  match goal with |- context [import_ready CONFIG world l ?st0] =>
    destruct (import_ready_listed CONFIG world (pending_imports s) [] l st0)
      as (s' & -> & Hp & Hd) end; [done | done | done |].
  exists l. cbn [snd]. split_and!; [done | | done].
  rewrite Hd. unfold advance. cbn. by rewrite !app_nil_r.
Qed.

Lemma process_pending_dispatches_pending_keys_witness :
  let r := process_pending (PL := Sample.posix) Sample.config
             (Sample.steady 100 10 60 Sample.exit0 (Ok 204))
             Sample.one_pending in
  ∃ l,
    l `sublist_of` (pending_imports Sample.one_pending).*1 ∧
    dispatched (trace r.2) = dispatched (trace Sample.one_pending) ++ l ∧
    pending_imports r.2
    = filter (λ entry, entry.1 ∉ l) (pending_imports Sample.one_pending).
Proof.
  apply (process_pending_dispatches_pending_keys (PL := Sample.posix)).
  - intros t k e [H | H]; discriminate.
  - cbn. apply NoDup_singleton.
Defined.

(** X14.  Along every history beets is launched only inside a dispatch, at
    most once per dispatch, and a success is logged only after a launch:
    successes, launches and dispatches are counted in that order. *)
Theorem launches_within_dispatches {PL : PathLib}
  (CONFIG : Config) (world : Oracle) (ops : list Op) (s : State) :
  let new := drop (length (trace s)) (trace (exec_ops CONFIG world ops s)) in
  (length (successes new) ≤ import_runs new)%nat ∧
  (import_runs new ≤ length (dispatched new))%nat.
Proof.
  cbn zeta.
  assert (H : ∃ evs,
    trace (exec_ops CONFIG world ops s) = trace s ++ evs ∧
    (length (successes evs) ≤ import_runs evs)%nat ∧
    (import_runs evs ≤ length (dispatched evs))%nat).
  { apply (along_exec_ops CONFIG world
      (λ s s', ∃ evs, trace s' = trace s ++ evs ∧
                (length (successes evs) ≤ import_runs evs)%nat ∧
                (import_runs evs ≤ length (dispatched evs))%nat)).
    - intros s1 s2 s3 (evs1 & Ht1 & Ha1 & Hb1) (evs2 & Ht2 & Ha2 & Hb2).
      exists (evs1 ++ evs2). split; [by rewrite Ht2, Ht1, app_assoc |].
      rewrite successes_app, import_runs_app, dispatched_app, !length_app. lia.
    - intros p s0.
      destruct (process_file_shape CONFIG world p s0)
        as (n & evs & P' & Hsh & Hd & Hcases).
      destruct (process_file_run_shape CONFIG world p s0) as (evs' & Ht & Hr).
      rewrite Hsh in Ht. cbn in Ht. apply app_inv_head in Ht.
      injection Ht as <-. rewrite Hsh. cbn [snd trace].
      eexists. split; [reflexivity |].
      change (successes (Enter_process_file p :: evs)) with (successes evs).
      change (import_runs (Enter_process_file p :: evs)) with (import_runs evs).
      change (dispatched (Enter_process_file p :: evs)) with (p :: dispatched evs).
      rewrite Hd. cbn [length].
      destruct Hcases as [(_ & -> & _) | (_ & _ & -> & _ & ->)]; cbn; [| lia].
      split; [lia |]. unfold import_runs. rewrite Hr.
      case_bool_decide; cbn; [lia |]. destruct (o_is_file _ _ _); cbn; lia.
    - intros s0 s1 evs HP Ht Hev. exists evs. split; [done |].
      destruct (incidental_quiet evs Hev) as (-> & _ & _ & -> & ->). cbn. lia. }
  destruct H as (evs & -> & H). by rewrite drop_app_length.
Qed.
